(** * A shallow embedding of the URL shortener's mapping store ([shorten.py])
      and of the PhotoApp client's retrying API layer ([photoapp.py]).

    Python functions become functions in a state-and-exception monad: a
    computation takes the state of the outside world (the database, or the
    network and the file system) and gives back either a returned value or
    a raised exception, together with the new state.  [try]/[except]/
    [finally] are combinators of that monad, so that the control flow of
    every operation can be read off next to its source. *)

From Stdlib Require Import ZArith List String Ascii Bool Lia DecimalString Sorted.
From Stdlib.Strings Require Import Byte.
Import ListNotations.

Set Warnings "-register-all".

Open Scope string_scope.
Open Scope Z_scope.

(** ** Python control flow: values, exceptions, [try] statements *)

Module Py.

Inductive outcome (E A : Type) : Type :=
| Ret (a : A)
| Raise (e : E).

Arguments Ret {E A} a.
Arguments Raise {E A} e.

Section Monad.
Context {S E : Type}.

Definition M (A : Type) : Type := S -> outcome E A * S.

Definition ret {A} (a : A) : M A := fun s => (Ret a, s).

Definition raise {A} (e : E) : M A := fun s => (Raise e, s).

Definition bind {A B} (m : M A) (k : A -> M B) : M B :=
  fun s =>
    match m s with
    | (Ret a, s') => k a s'
    | (Raise e, s') => (Raise e, s')
    end.

(** [try: body except Exception as err: handler err] *)
Definition try_except {A} (body : M A) (handler : E -> M A) : M A :=
  fun s =>
    match body s with
    | (Ret a, s') => (Ret a, s')
    | (Raise e, s') => handler e s'
    end.

(** [try: body finally: fin].  The [finally] block runs whatever the
    body did, also after a [return]; an exception raised by the block
    itself replaces the body's outcome. *)
Definition try_finally {A} (body : M A) (fin : M unit) : M A :=
  fun s =>
    match body s with
    | (r, s') =>
        match fin s' with
        | (Ret _, s'') => (r, s'')
        | (Raise e, s'') => (Raise e, s'')
        end
    end.
End Monad.

Arguments M : clear implicits.

Declare Scope py_scope.
Delimit Scope py_scope with py.

Notation "x <- c1 ;; c2" := (bind c1 (fun x => c2))
  (at level 61, c1 at next level, right associativity) : py_scope.
Notation "c1 ;; c2" := (bind c1 (fun _ => c2))
  (at level 61, right associativity) : py_scope.

End Py.

Import Py.

(** ** The mapping store: [labs/lab02/shorten.py] *)

Module Shorten.

(** A row of [LinksTable]. The three columns are the ones the SQL text of
    the module names. *)
Record row : Type := mkRow {
  ShortUrl : string;
  LongUrl : string;
  LookedUpCount : Z
}.

Definition LinksTable := list row.

(** Modelled from the spec: the schema of [LinksTable] is not part of the
    sources; the specification describes "a table keyed by short URL with
    columns for the long URL and a non-negative lookup counter".  The two
    schema constraints are kept as predicates on tables. *)
Definition unique_keys (t : LinksTable) : Prop := NoDup (map ShortUrl t).

Definition counters_nonneg (t : LinksTable) : Prop :=
  forall r, In r t -> 0 <= LookedUpCount r.

(** The five SQL statements of the module, with their parameters. *)
Inductive statement : Type :=
| UPDATE_count (shorturl : string)
    (* UPDATE LinksTable SET LookedUpCount = LookedUpCount + 1 WHERE ShortUrl = %s *)
| SELECT_LongUrl (shorturl : string)
    (* SELECT LongUrl FROM LinksTable WHERE ShortUrl = %s *)
| SELECT_LookedUpCount (shorturl : string)
    (* SELECT LookedUpCount FROM LinksTable WHERE ShortUrl = %s *)
| INSERT_row (shorturl longurl : string)
    (* INSERT INTO LinksTable (ShortUrl, LongUrl, LookedUpCount) VALUES(%s, %s, 0) *)
| DELETE_all.
    (* DELETE FROM LinksTable *)

Inductive stmt_kind : Type := KUpdate | KSelectLong | KSelectCount | KInsert | KDelete.

Definition kind_of (q : statement) : stmt_kind :=
  match q with
  | UPDATE_count _ => KUpdate
  | SELECT_LongUrl _ => KSelectLong
  | SELECT_LookedUpCount _ => KSelectCount
  | INSERT_row _ _ => KInsert
  | DELETE_all => KDelete
  end.

Definition is_write (k : stmt_kind) : bool :=
  match k with
  | KUpdate | KInsert | KDelete => true
  | KSelectLong | KSelectCount => false
  end.

(** The calls an operation makes on the database driver.  Within one
    operation every call below happens at most once, so a fault oracle
    indexed by the call describes every pattern of failures. *)
Inductive db_call : Type :=
| Connect
| Begin
| Cursor
| Execute (k : stmt_kind)
| Fetchone
| Commit
| Rollback
| Close.

(** [f c = true]: the driver raises a database error at call [c].
    [Close] is recorded in traces but never consulted: pymysql's
    [Connection.close] swallows the errors of the quit packet and raises
    only on a connection that was closed before, which no operation here
    does. *)
Definition faults := db_call -> bool.

Definition no_faults : faults := fun _ => false.

Inductive exn : Type :=
| AttributeError (attr : string)   (* 'NoneType' object has no attribute attr *)
| DatabaseError (c : db_call).     (* an error raised by the driver at call c *)

(** The database as one client sees it: the committed table, the view of
    the client's open connection (uncommitted changes included), the
    result set of the last statement, and the calls made so far. *)
Record database : Type := mkDb {
  committed : LinksTable;
  session : option LinksTable;
  results : list row;
  trace : list db_call
}.

Definition at_rest (t : LinksTable) : database :=
  {| committed := t; session := None; results := []; trace := [] |}.

Definition M := Py.M database exn.

Definition record (c : db_call) (d : database) : database :=
  {| committed := committed d; session := session d;
     results := results d; trace := (trace d ++ [c])%list |}.

(** A connection object; the Python variable [dbConn] holds one or [None]. *)
Inductive connection : Type := PyMySQLConnection.
Inductive cursor_obj : Type := PyMySQLCursor.

(** [get_dbConn]: every exception of reading the configuration or of
    [pymysql.connect] is caught inside, and [None] is returned. *)
Definition get_dbConn (f : faults) : M (option connection) :=
  fun d =>
    let d := record Connect d in
    if f Connect then (Ret None, d)
    else (Ret (Some PyMySQLConnection),
          {| committed := committed d; session := Some (committed d);
             results := []; trace := trace d |}).

(** A driver call that only talks to the server. *)
Definition driver_call (f : faults) (c : db_call) : M unit :=
  fun d =>
    let d := record c d in
    if f c then (Raise (DatabaseError c), d) else (Ret tt, d).

(** Method calls on [dbConn]: on [None] Python raises [AttributeError]
    before anything reaches the driver. *)
Definition begin (f : faults) (dbConn : option connection) : M unit :=
  match dbConn with
  | None => raise (AttributeError "begin")
  | Some _ => driver_call f Begin
  end.

Definition cursor (f : faults) (dbConn : option connection) : M cursor_obj :=
  match dbConn with
  | None => raise (AttributeError "cursor")
  | Some _ => (driver_call f Cursor ;; ret PyMySQLCursor)%py
  end.

Definition bump (shorturl : string) (r : row) : row :=
  if String.eqb (ShortUrl r) shorturl
  then {| ShortUrl := ShortUrl r; LongUrl := LongUrl r;
          LookedUpCount := LookedUpCount r + 1 |}
  else r.

Definition has_key (shorturl : string) (r : row) : bool :=
  String.eqb (ShortUrl r) shorturl.

(** What a statement does to the connection's view of the table, and the
    result set it leaves in the cursor. *)
Definition run_statement (q : statement) (t : LinksTable) : LinksTable * list row :=
  match q with
  | UPDATE_count k => (map (bump k) t, [])
  | SELECT_LongUrl k => (t, filter (has_key k) t)
  | SELECT_LookedUpCount k => (t, filter (has_key k) t)
  | INSERT_row k l =>
      ((t ++ [ {| ShortUrl := k; LongUrl := l; LookedUpCount := 0 |} ])%list, [])
  | DELETE_all => ([], [])
  end.

Definition execute (f : faults) (dbCursor : cursor_obj) (q : statement) : M unit :=
  fun d =>
    let d := record (Execute (kind_of q)) d in
    if f (Execute (kind_of q)) then (Raise (DatabaseError (Execute (kind_of q))), d)
    else
      match session d with
      | None => (Raise (DatabaseError (Execute (kind_of q))), d)
      | Some view =>
          let (view', rs) := run_statement q view in
          (Ret tt, {| committed := committed d; session := Some view';
                      results := rs; trace := trace d |})
      end.

(** [fetchone]: the next row of the result set, or [None]. *)
Definition fetchone (f : faults) (dbCursor : cursor_obj) : M (option row) :=
  fun d =>
    let d := record Fetchone d in
    if f Fetchone then (Raise (DatabaseError Fetchone), d)
    else
      match results d with
      | [] => (Ret None, d)
      | r :: rs =>
          (Ret (Some r), {| committed := committed d; session := session d;
                            results := rs; trace := trace d |})
      end.

(** [commit] makes the connection's view the committed table; a commit
    that raises commits nothing. *)
Definition commit (f : faults) (dbConn : option connection) : M unit :=
  match dbConn with
  | None => raise (AttributeError "commit")
  | Some _ =>
      fun d =>
        let d := record Commit d in
        if f Commit then (Raise (DatabaseError Commit), d)
        else
          match session d with
          | None => (Raise (DatabaseError Commit), d)
          | Some view =>
              (Ret tt, {| committed := view; session := Some view;
                          results := results d; trace := trace d |})
          end
  end.

(** [rollback] resets the connection's view to the committed table. *)
Definition rollback (f : faults) (dbConn : option connection) : M unit :=
  match dbConn with
  | None => raise (AttributeError "rollback")
  | Some _ =>
      fun d =>
        let d := record Rollback d in
        if f Rollback then (Raise (DatabaseError Rollback), d)
        else (Ret tt, {| committed := committed d; session := Some (committed d);
                         results := results d; trace := trace d |})
  end.

(** [if dbConn is not None: dbConn.close()].  Closing drops whatever the
    connection had not committed. *)
Definition close_if_not_None (dbConn : option connection) : M unit :=
  match dbConn with
  | None => ret tt
  | Some _ =>
      fun d =>
        let d := record Close d in
        (Ret tt, {| committed := committed d; session := None;
                    results := []; trace := trace d |})
  end.

(** [get_url(shorturl)].  [get_dbConn] cannot raise, so [dbConn] is bound
    when the handler and the [finally] block run. *)
Definition get_url (f : faults) (shorturl : string) : M string :=
  (dbConn <- get_dbConn f ;;
   try_finally
     (try_except
        (begin f dbConn ;;
         dbCursor <- cursor f dbConn ;;
         execute f dbCursor (UPDATE_count shorturl) ;;
         execute f dbCursor (SELECT_LongUrl shorturl) ;;
         row <- fetchone f dbCursor ;;
         let longurl := match row with Some r => LongUrl r | None => "" end in
         commit f dbConn ;;
         ret longurl)
        (fun err => rollback f dbConn ;; ret ""))
     (close_if_not_None dbConn))%py.

(** [get_stats(shorturl)]: no [begin], no [commit], and no [rollback] in
    the handler. *)
Definition get_stats (f : faults) (shorturl : string) : M Z :=
  (dbConn <- get_dbConn f ;;
   try_finally
     (try_except
        (dbCursor <- cursor f dbConn ;;
         execute f dbCursor (SELECT_LookedUpCount shorturl) ;;
         row <- fetchone f dbCursor ;;
         match row with
         | Some r => ret (LookedUpCount r)
         | None => ret (-1)
         end)
        (fun err => ret (-1)))
     (close_if_not_None dbConn))%py.

(** [put_shorturl(longurl, shorturl)] *)
Definition put_shorturl (f : faults) (longurl shorturl : string) : M bool :=
  (dbConn <- get_dbConn f ;;
   try_finally
     (try_except
        (begin f dbConn ;;
         dbCursor <- cursor f dbConn ;;
         execute f dbCursor (SELECT_LongUrl shorturl) ;;
         row <- fetchone f dbCursor ;;
         match row with
         | Some r =>
             if String.eqb (LongUrl r) longurl
             then (commit f dbConn ;; ret true)
             else (commit f dbConn ;; ret false)
         | None =>
             execute f dbCursor (INSERT_row shorturl longurl) ;;
             commit f dbConn ;;
             ret true
         end)
        (fun err => rollback f dbConn ;; ret false))
     (close_if_not_None dbConn))%py.

(** [put_reset()] *)
Definition put_reset (f : faults) : M bool :=
  (dbConn <- get_dbConn f ;;
   try_finally
     (try_except
        (begin f dbConn ;;
         dbCursor <- cursor f dbConn ;;
         execute f dbCursor DELETE_all ;;
         commit f dbConn ;;
         ret true)
        (fun err => rollback f dbConn ;; ret false))
     (close_if_not_None dbConn))%py.

(** The four public operations as one call interface. *)
Inductive operation : Type :=
| Get_url (shorturl : string)
| Get_stats (shorturl : string)
| Put_shorturl (longurl shorturl : string)
| Put_reset.

Inductive answer : Type :=
| AStr (s : string)
| AInt (z : Z)
| ABool (b : bool).

Definition call (f : faults) (op : operation) : M answer :=
  match op with
  | Get_url k => (s <- get_url f k ;; ret (AStr s))%py
  | Get_stats k => (z <- get_stats f k ;; ret (AInt z))%py
  | Put_shorturl l k => (b <- put_shorturl f l k ;; ret (ABool b))%py
  | Put_reset => (b <- put_reset f ;; ret (ABool b))%py
  end.

(** Two fault patterns: no connection can be obtained; the connection is
    lost at the first statement, so that the rollback fails as well. *)
Definition connect_fails : faults :=
  fun c => match c with Connect => true | _ => false end.

Definition connection_lost : faults :=
  fun c => match c with Execute _ | Rollback => true | _ => false end.

(** *** Vocabulary of the statements about the store *)

(** The calls each operation makes on its way to a successful return; a
    fault at one of them is what makes the operation fail. *)
Definition get_url_fault (f : faults) : bool :=
  f Connect || f Begin || f Cursor || f (Execute KUpdate) ||
  f (Execute KSelectLong) || f Fetchone || f Commit.

Definition get_stats_fault (f : faults) : bool :=
  f Connect || f Cursor || f (Execute KSelectCount) || f Fetchone.

(** [put_shorturl] when the key is there (it only reads) and when it is
    not (it inserts). *)
Definition confirm_fault (f : faults) : bool :=
  f Connect || f Begin || f Cursor || f (Execute KSelectLong) || f Fetchone ||
  f Commit.

Definition insert_fault (f : faults) : bool :=
  f Connect || f Begin || f Cursor || f (Execute KSelectLong) || f Fetchone ||
  f (Execute KInsert) || f Commit.

Definition reset_fault (f : faults) : bool :=
  f Connect || f Begin || f Cursor || f (Execute KDelete) || f Commit.

(** What the two SELECT statements find in a table: the column of the
    first row with the key, and the value the caller gets without one. *)
Definition stored_longurl (shorturl : string) (t : LinksTable) : string :=
  match filter (has_key shorturl) t with
  | r :: _ => LongUrl r
  | [] => ""
  end.

Definition stored_count (shorturl : string) (t : LinksTable) : Z :=
  match filter (has_key shorturl) t with
  | r :: _ => LookedUpCount r
  | [] => -1
  end.

(** The INSERT, UPDATE and DELETE statements of a trace. *)
Definition writes (tr : list db_call) : list db_call :=
  filter (fun c => match c with Execute k => is_write k | _ => false end) tr.

Definition new_row (shorturl longurl : string) : row :=
  {| ShortUrl := shorturl; LongUrl := longurl; LookedUpCount := 0 |}.

(** An operation failed: it returned its failure value or raised. *)
Definition failed {A} (failure : A) (r : outcome exn A) : Prop :=
  r = Ret failure \/ exists e, r = Raise e.

(** What an operation [op] with outcome [r] may have done to a row that
    is there before ([r0]) and after ([r1]): the long URL is the same, the
    counter did not go down, and it went up only by one, in a [get_url] of
    the row's key that returned the row's long URL. *)
Definition row_kept (op : operation) (r : outcome exn answer) (r0 r1 : row) : Prop :=
  LongUrl r1 = LongUrl r0 /\
  LookedUpCount r0 <= LookedUpCount r1 /\
  (LookedUpCount r0 < LookedUpCount r1 ->
   op = Get_url (ShortUrl r0) /\ r = Ret (AStr (LongUrl r0)) /\
   LookedUpCount r1 = LookedUpCount r0 + 1).

(** *** Runs of several operations *)

(** [Close] in a trace. *)
Definition is_close (c : db_call) : bool :=
  match c with Close => true | _ => false end.

Definition is_reset (op : operation) : bool :=
  match op with Put_reset => true | _ => false end.

(** One call after another on the same database, each with its own
    pattern of faults; the answers are dropped. *)
Definition step (d : database) (fo : faults * operation) : database :=
  snd (call (fst fo) (snd fo) d).

Definition run (script : list (faults * operation)) (d : database) : database :=
  fold_left step script d.

(** [n] calls of [get_url] for the same key on a database that does not
    fail. *)
Fixpoint lookups (n : nat) (shorturl : string) (d : database) : database :=
  match n with
  | O => d
  | S n' => lookups n' shorturl (snd (get_url no_faults shorturl d))
  end.

(** What a row keeps through a call that is not a reset. *)
Definition survives (r0 : row) (t : LinksTable) : Prop :=
  exists r1, In r1 t /\ ShortUrl r1 = ShortUrl r0 /\ LongUrl r1 = LongUrl r0 /\
             LookedUpCount r0 <= LookedUpCount r1.

End Shorten.

(** ** The PhotoApp client: [projects/project02/client/photoapp.py] *)

Module PhotoApp.

(** Python values that travel through the client: parsed JSON (without
    floating-point numbers) and the tuples the operations build. *)
Inductive value : Type :=
| VNone
| VBool (b : bool)
| VInt (z : Z)
| VStr (s : string)
| VList (l : list value)
| VTuple (l : list value)
| VDict (kvs : list (string * value)).

(** *** [str] and [repr] *)

Definition str_int (z : Z) : string := NilZero.string_of_int (Z.to_int z).

Definition squote : ascii := "'"%char.
Definition dquote : ascii := ascii_of_nat 34.
Definition backslash : ascii := "\"%char.

Definition contains (c : ascii) (s : string) : bool :=
  existsb (Ascii.eqb c) (list_ascii_of_string s).

Definition hex_digit (n : N) : string :=
  match String.get (N.to_nat n) "0123456789abcdef" with
  | Some c => String c ""
  | None => ""
  end.

Definition repr_char (quote c : ascii) : string :=
  let n := N_of_ascii c in
  if Ascii.eqb c backslash then "\\"
  else if Ascii.eqb c quote then String backslash (String c "")
  else if (n =? 10)%N then "\n"
  else if (n =? 13)%N then "\r"
  else if (n =? 9)%N then "\t"
  else if ((n <? 32) || (n =? 127))%N
       then "\x" ++ hex_digit (n / 16) ++ hex_digit (n mod 16)
  else String c "".

Definition repr_str (s : string) : string :=
  let quote := if contains squote s && negb (contains dquote s)
               then dquote else squote in
  String quote
    (String.concat "" (map (repr_char quote) (list_ascii_of_string s))
     ++ String quote "").

Fixpoint py_repr (v : value) : string :=
  match v with
  | VNone => "None"
  | VBool true => "True"
  | VBool false => "False"
  | VInt z => str_int z
  | VStr s => repr_str s
  | VList l => "[" ++ String.concat ", " (map py_repr l) ++ "]"
  | VTuple [x] => "(" ++ py_repr x ++ ",)"
  | VTuple l => "(" ++ String.concat ", " (map py_repr l) ++ ")"
  | VDict kvs =>
      "{" ++ String.concat ", "
               (map (fun kv => repr_str (fst kv) ++ ": " ++ py_repr (snd kv)) kvs)
          ++ "}"
  end.

Definition py_str (v : value) : string :=
  match v with
  | VStr s => s
  | _ => py_repr v
  end.

(** *** Strings: [strip], [rstrip], [basename] *)

(** The characters of the ASCII range that [str.strip()] removes.  A
    [str] may hold white space beyond that range (U+0085, U+00A0,
    U+2000, ...), which [str.strip()] removes as well; [ascii_text] below
    marks the strings on which this definition and [str.strip()] agree. *)
Definition isspace (c : ascii) : bool :=
  let n := N_of_ascii c in
  (((9 <=? n) && (n <=? 13)) || ((28 <=? n) && (n <=? 32)))%N.

Fixpoint lstrip_by (p : ascii -> bool) (s : string) : string :=
  match s with
  | EmptyString => EmptyString
  | String c s' => if p c then lstrip_by p s' else s
  end.

Fixpoint rstrip_by (p : ascii -> bool) (s : string) : string :=
  match s with
  | EmptyString => EmptyString
  | String c s' =>
      match rstrip_by p s' with
      | EmptyString => if p c then EmptyString else String c EmptyString
      | r => String c r
      end
  end.

Definition strip (s : string) : string := rstrip_by isspace (lstrip_by isspace s).


Definition rstrip_slash (s : string) : string := rstrip_by (Ascii.eqb "/"%char) s.

(** [os.path.basename]: what follows the last slash. *)
Fixpoint basename_from (acc s : string) : string :=
  match s with
  | EmptyString => acc
  | String c s' =>
      if Ascii.eqb c "/"%char then basename_from "" s'
      else basename_from (acc ++ String c "") s'
  end.

Definition basename (s : string) : string := basename_from "" s.

(** *** [base64.b64encode] *)

Definition b64_char (n : N) : string :=
  match String.get (N.to_nat n)
          "ABCDEFGHIJKLMNOPQRSTUVWXYZabcdefghijklmnopqrstuvwxyz0123456789+/" with
  | Some c => String c ""
  | None => ""
  end.

Fixpoint b64encode (bs : list byte) : string :=
  match bs with
  | [] => ""
  | [a] =>
      let x := Byte.to_N a in
      b64_char (x / 4) ++ b64_char ((x mod 4) * 16) ++ "=="
  | [a; b] =>
      let x := Byte.to_N a in
      let y := Byte.to_N b in
      b64_char (x / 4) ++ b64_char ((x mod 4) * 16 + y / 16)
        ++ b64_char ((y mod 16) * 4) ++ "="
  | a :: b :: c :: rest =>
      let x := Byte.to_N a in
      let y := Byte.to_N b in
      let z := Byte.to_N c in
      b64_char (x / 4) ++ b64_char ((x mod 4) * 16 + y / 16)
        ++ b64_char ((y mod 16) * 4 + z / 64) ++ b64_char (z mod 64)
        ++ b64encode rest
  end.

(** *** The world of the client *)

Inductive node : Type :=
| File (content : list byte)
| Directory.

Inductive http_method : Type := GET | POST | DELETE.

Record request : Type := mkRequest {
  method : http_method;
  target : string;
  params : list (string * value);
  json_payload : option value
}.

(** A response as the client reads it; [json_body = None] is a body that
    [response.json()] cannot parse. *)
Record response : Type := mkResponse {
  status_code : Z;
  reason : string;
  url : string;
  json_body : option value
}.

Inductive exn : Type :=
| ValueError (arg : value)
| HTTPError (arg : value)            (* requests.exceptions.HTTPError *)
| ConnectionError (msg : string)     (* requests.exceptions.ConnectionError *)
| Timeout (msg : string)             (* requests.exceptions.Timeout *)
| RequestException (msg : string)    (* the other exceptions of requests *)
| KeyError (key : string)
| TypeError (msg : string)
| OSError (msg : string).

Definition str_exn (e : exn) : string :=
  match e with
  | ValueError a | HTTPError a => py_str a
  | ConnectionError m | Timeout m | RequestException m
  | TypeError m | OSError m => m
  | KeyError k => repr_str k
  end.

(** The module variable, the file system, and what a call leaves behind:
    the requests handed to the transport, the delays slept between
    attempts, the number of attempts started, and the records handed to
    [logging].

    [files] tells what each path names: a regular file, with the
    content a read of it yields, or a directory.  [write_failure] is the
    part of the operating system the module cannot see: the message of
    the [OSError] that [open(name, 'wb')] would raise (no such file or
    directory, permission denied, bad file descriptor, ...), [None]
    where the file opens.

    [logged] holds the records in the order [logging.error] received
    them.  Where they end up is decided by the logging configuration of
    the calling program, not by this module ([client.py] sends them to
    [log.txt]); [files] therefore stands for the files other than the
    destination of the log. *)
Record world : Type := mkWorld {
  WEB_SERVICE_URL : string;
  files : string -> option node;
  write_failure : value -> option string;
  sent : list request;
  slept : list Z;
  attempts : nat;
  logged : list string
}.

Definition M := Py.M world exn.

(** *** The retry decorator (tenacity) *)

(** [retry_if_exception_type((ConnectionError, Timeout))] *)
Definition retry_if_exception_type (e : exn) : bool :=
  match e with
  | ConnectionError _ | Timeout _ => true
  | _ => false
  end.

(** [stop_after_attempt(n)]: stop once [n] attempts were made. *)
Definition stop_after_attempt (max_attempt_number attempt_number : nat) : bool :=
  (max_attempt_number <=? attempt_number)%nat.

(** [wait_exponential(multiplier, min, max)] with base 2, as tenacity
    computes it from the number of the attempt that just failed. *)
Definition wait_exponential (multiplier min max : Z) (attempt_number : nat) : Z :=
  let exp := 2 ^ (Z.of_nat attempt_number - 1) in
  let result := multiplier * exp in
  Z.max (Z.max 0 min) (Z.min result max).

Definition begin_attempt (w : world) : world :=
  {| WEB_SERVICE_URL := WEB_SERVICE_URL w; files := files w;
     write_failure := write_failure w; sent := sent w;
     slept := slept w; attempts := S (attempts w); logged := logged w |}.

Definition sleep (seconds : Z) (w : world) : world :=
  {| WEB_SERVICE_URL := WEB_SERVICE_URL w; files := files w;
     write_failure := write_failure w; sent := sent w;
     slept := (slept w ++ [seconds])%list; attempts := attempts w;
     logged := logged w |}.

(** The loop of the decorator with [reraise=True]: run the function; a
    returned value ends the call; an exception the retry predicate rejects
    is raised as it is; otherwise, once the stop condition holds, the last
    exception is raised, and else the call sleeps and runs the function
    again.  [fuel] bounds the recursion; the stop condition ends the loop
    before it runs out (lemma [retry_fuel] below). *)
Fixpoint retry_loop {A} (stop : nat -> bool) (wait : nat -> Z)
    (fuel attempt_number : nat) (fn : M A) : M A :=
  fun w =>
    match fn (begin_attempt w) with
    | (Ret a, w') => (Ret a, w')
    | (Raise e, w') =>
        if negb (retry_if_exception_type e) then (Raise e, w')
        else if stop attempt_number then (Raise e, w')
        else
          match fuel with
          | O => (Raise e, w')
          | S fuel' =>
              retry_loop stop wait fuel' (S attempt_number) fn
                (sleep (wait attempt_number) w')
          end
    end.

(** [@retry(stop=stop_after_attempt(3),
            wait=wait_exponential(multiplier=1, min=2, max=30),
            retry=retry_if_exception_type((ConnectionError, Timeout)),
            reraise=True)] *)
Definition retry {A} (fn : M A) : M A :=
  retry_loop (stop_after_attempt 3) (wait_exponential 1 2 30) 3 1 fn.

(** *** Helpers of the module *)

(** [logging.error(msg)]: one more record for the handlers the calling
    program configured. *)
Definition logging_error (msg : string) : M unit :=
  fun w =>
    (Ret tt,
     {| WEB_SERVICE_URL := WEB_SERVICE_URL w; files := files w;
        write_failure := write_failure w; sent := sent w;
        slept := slept w; attempts := attempts w;
        logged := (logged w ++ [msg])%list |}).

(** [except Exception as err: logging.error(name); logging.error(str(err)); raise] *)
Definition log_and_reraise {A} (name : string) (err : exn) : M A :=
  (logging_error name ;; logging_error (str_exn err) ;; raise err)%py.

Definition isfile (w : world) (path : string) : bool :=
  match files w path with
  | Some (File _) => true
  | _ => false
  end.

Definition _validate_local_filename (local_filename : option string) : M string :=
  match local_filename with
  | None => raise (ValueError (VStr "local_filename is required"))
  | Some name =>
      if String.eqb (strip name) ""
      then raise (ValueError (VStr "local_filename cannot be empty"))
      else
        fun w =>
          if negb (isfile w name)
          then (Raise (ValueError (VStr "local_filename does not exist or is not a file")), w)
          else (Ret name, w)
  end.

Definition _build_url (path : string) : M string :=
  fun w => (Ret (rstrip_slash (WEB_SERVICE_URL w) ++ path), w).

Definition _safe_json (r : response) : M value :=
  match json_body r with
  | Some v => ret v
  | None =>
      raise (HTTPError (VStr ("status code " ++ str_int (status_code r)
                              ++ ": invalid JSON response")))
  end.

(** [response.raise_for_status()] *)
Definition raise_for_status (r : response) : M unit :=
  if (400 <=? status_code r) && (status_code r <? 500)
  then raise (HTTPError (VStr (str_int (status_code r) ++ " Client Error: "
                               ++ reason r ++ " for url: " ++ url r)))
  else if (500 <=? status_code r) && (status_code r <? 600)
  then raise (HTTPError (VStr (str_int (status_code r) ++ " Server Error: "
                               ++ reason r ++ " for url: " ++ url r)))
  else ret tt.

Fixpoint lookup (key : string) (kvs : list (string * value)) : option value :=
  match kvs with
  | [] => None
  | (k, v) :: rest => if String.eqb k key then Some v else lookup key rest
  end.

(** [v[key]] with a string key. *)
Definition getitem (v : value) (key : string) : M value :=
  match v with
  | VDict kvs =>
      match lookup key kvs with
      | Some x => ret x
      | None => raise (KeyError key)
      end
  | VList _ | VTuple _ | VStr _ => raise (TypeError "indices must be integers")
  | VNone | VBool _ | VInt _ => raise (TypeError "object is not subscriptable")
  end.

(** The elements a [for] loop over [v] visits. *)
Definition iterate (v : value) : M (list value) :=
  match v with
  | VList l | VTuple l => ret l
  | VDict kvs => ret (map (fun kv => VStr (fst kv)) kvs)
  | VStr s => ret (map (fun c => VStr (String c "")) (list_ascii_of_string s))
  | VNone | VBool _ | VInt _ => raise (TypeError "object is not iterable")
  end.

(** A loop that appends one element per iteration. *)
Fixpoint for_each {A B} (f : A -> M B) (l : list A) : M (list B) :=
  match l with
  | [] => ret []
  | x :: rest => (y <- f x ;; ys <- for_each f rest ;; ret (y :: ys))%py
  end.

(** [row[k1], ..., row[kn]] as a tuple. *)
Definition columns (keys : list string) (row : value) : M value :=
  (cells <- for_each (getitem row) keys ;; ret (VTuple cells))%py.

Definition status_message (r : response) (msg : value) : string :=
  "status code " ++ str_int (status_code r) ++ ": " ++ py_str msg.

(** [open(filename, 'rb').read()] *)
Definition read_file (filename : string) : M (list byte) :=
  fun w =>
    match files w filename with
    | Some (File content) => (Ret content, w)
    | Some Directory => (Raise (OSError "Is a directory"), w)
    | None => (Raise (OSError "No such file or directory"), w)
    end.

(** [with open(filename, 'wb') as outfile: outfile.write(data)].
    [open] takes a string as a path and an integer (a boolean is one) as
    a file descriptor, and raises [TypeError] for any other name.  A
    path with a NUL character and a negative descriptor are a
    [ValueError]; a directory cannot be opened for writing; otherwise
    the operating system decides ([write_failure]).  Once the file is
    open the write is taken to go through, and the path then reads as
    [data]; a descriptor names no path, and what other spellings of the
    written path read is not tracked. *)
Definition write_file (filename : value) (data : list byte) : M unit :=
  fun w =>
    let through_the_system (w' : world) :=
      match write_failure w filename with
      | Some msg => (Raise (OSError msg), w)
      | None => (Ret tt, w')
      end in
    match filename with
    | VStr name =>
        if contains Ascii.zero name
        then (Raise (ValueError (VStr "embedded null byte")), w)
        else
          match files w name with
          | Some Directory => (Raise (OSError "Is a directory"), w)
          | _ =>
              through_the_system
                {| WEB_SERVICE_URL := WEB_SERVICE_URL w;
                   files := fun p => if String.eqb p name then Some (File data)
                                     else files w p;
                   write_failure := write_failure w;
                   sent := sent w; slept := slept w; attempts := attempts w;
                   logged := logged w |}
          end
    | VInt fd =>
        if fd <? 0
        then (Raise (ValueError (VStr "negative file descriptor")), w)
        else through_the_system w
    | VBool _ => through_the_system w
    | _ => (Raise (TypeError "expected str, bytes or os.PathLike object"), w)
    end.

Section Client.

(** The network and the server: what the [n]-th request of a call gets,
    a response or an exception of the transport. *)
Variable net : nat -> request -> outcome exn response.

(** [binascii]'s decoder, [None] where it raises its error (a
    [ValueError]). *)
Variable b64decode : string -> option (list byte).

Definition requests_send (rq : request) : M response :=
  fun w =>
    (net (List.length (sent w)) rq,
     {| WEB_SERVICE_URL := WEB_SERVICE_URL w; files := files w;
        write_failure := write_failure w;
        sent := (sent w ++ [rq])%list; slept := slept w;
        attempts := attempts w; logged := logged w |}).

Definition requests_get (u : string) (ps : list (string * value)) : M response :=
  requests_send {| method := GET; target := u; params := ps; json_payload := None |}.

Definition requests_post (u : string) (payload : value) : M response :=
  requests_send {| method := POST; target := u; params := []; json_payload := Some payload |}.

Definition requests_delete (u : string) : M response :=
  requests_send {| method := DELETE; target := u; params := []; json_payload := None |}.

Definition base64_b64decode (v : value) : M (list byte) :=
  match v with
  | VStr s =>
      match b64decode s with
      | Some bs => ret bs
      | None => raise (ValueError (VStr "Incorrect padding"))
      end
  | _ => raise (TypeError "argument should be a bytes-like object or ASCII string")
  end.

Definition get_ping_fn : M value :=
  (try_except
     (u <- _build_url "/ping" ;;
      response <- requests_get u [] ;;
      body <- _safe_json response ;;
      if status_code response =? 200 then
        m <- getitem body "M" ;;
        n <- getitem body "N" ;;
        ret (VTuple [m; n])
      else
        msg <- getitem body "message" ;;
        raise (HTTPError (VStr (status_message response msg))))
     (log_and_reraise "get_ping():"))%py.

Definition get_ping : M value := retry get_ping_fn.

Definition get_users_fn : M value :=
  (try_except
     (u <- _build_url "/users" ;;
      response <- requests_get u [] ;;
      body <- _safe_json response ;;
      if status_code response =? 200 then
        rows <- getitem body "data" ;;
        rows <- iterate rows ;;
        users <- for_each (columns ["userid"; "username"; "givenname"; "familyname"]) rows ;;
        ret (VList users)
      else
        msg <- getitem body "message" ;;
        raise (HTTPError (VStr (status_message response msg))))
     (log_and_reraise "get_users():"))%py.

Definition get_users : M value := retry get_users_fn.

Definition get_images_fn (userid : value) : M value :=
  (try_except
     (u <- _build_url "/images" ;;
      let ps := match userid with VNone => [] | _ => [("userid", userid)] end in
      response <- requests_get u ps ;;
      body <- _safe_json response ;;
      if status_code response =? 200 then
        rows <- getitem body "data" ;;
        rows <- iterate rows ;;
        images <- for_each (columns ["assetid"; "userid"; "localname"; "bucketkey"]) rows ;;
        ret (VList images)
      else
        msg <- getitem body "message" ;;
        raise (HTTPError (VStr (status_message response msg))))
     (log_and_reraise "get_images():"))%py.

Definition get_images (userid : value) : M value := retry (get_images_fn userid).

Definition post_image_fn (userid : value) (local_filename : option string) : M value :=
  (try_except
     (u <- _build_url ("/image/" ++ py_str userid) ;;
      filename <- _validate_local_filename local_filename ;;
      image_bytes <- read_file filename ;;
      let image_str := b64encode image_bytes in
      let data := VDict [("local_filename", VStr (basename filename));
                         ("data", VStr image_str)] in
      response <- requests_post u data ;;
      body <- _safe_json response ;;
      if status_code response =? 200 then
        getitem body "assetid"
      else
        msg <- getitem body "message" ;;
        raise (HTTPError (VStr (status_message response msg))))
     (log_and_reraise "post_image():"))%py.

Definition post_image (userid : value) (local_filename : option string) : M value :=
  retry (post_image_fn userid local_filename).

Definition get_image_fn (assetid : value) (local_filename : option string) : M value :=
  (try_except
     (u <- _build_url ("/image/" ++ py_str assetid) ;;
      response <- requests_get u [] ;;
      if status_code response =? 200 then
        body <- _safe_json response ;;
        original_filename <- getitem body "local_filename" ;;
        image_base64 <- getitem body "data" ;;
        image_bytes <- base64_b64decode image_base64 ;;
        let filename_to_save :=
          match local_filename with
          | Some name => VStr name
          | None => original_filename
          end in
        write_file filename_to_save image_bytes ;;
        ret filename_to_save
      else if (status_code response =? 400) || (status_code response =? 500) then
        body <- _safe_json response ;;
        msg <- getitem body "message" ;;
        raise (ValueError (VStr (status_message response msg)))
      else
        raise_for_status response ;;
        ret VNone)
     (log_and_reraise "get_image():"))%py.

Definition get_image (assetid : value) (local_filename : option string) : M value :=
  retry (get_image_fn assetid local_filename).

Definition get_image_labels_fn (assetid : value) : M value :=
  (try_except
     (u <- _build_url "/image_labels" ;;
      response <- requests_get u [("assetid", assetid)] ;;
      if status_code response =? 200 then
        body <- _safe_json response ;;
        rows <- getitem body "data" ;;
        rows <- iterate rows ;;
        labels <- for_each (columns ["label"; "confidence"]) rows ;;
        ret (VList labels)
      else if status_code response =? 400 then
        body <- _safe_json response ;;
        msg <- getitem body "message" ;;
        raise (ValueError msg)
      else if status_code response =? 500 then
        body <- _safe_json response ;;
        msg <- getitem body "message" ;;
        raise (HTTPError (VStr (status_message response msg)))
      else
        raise_for_status response ;;
        ret VNone)
     (log_and_reraise "get_image_labels():"))%py.

Definition get_image_labels (assetid : value) : M value :=
  retry (get_image_labels_fn assetid).

Definition get_images_with_label_fn (label : value) : M value :=
  (try_except
     (u <- _build_url "/images_with_label" ;;
      response <- requests_get u [("label", label)] ;;
      if status_code response =? 200 then
        body <- _safe_json response ;;
        rows <- getitem body "data" ;;
        rows <- iterate rows ;;
        labels <- for_each (columns ["assetid"; "label"; "confidence"]) rows ;;
        ret (VList labels)
      else if status_code response =? 400 then
        body <- _safe_json response ;;
        msg <- getitem body "message" ;;
        raise (ValueError msg)
      else if status_code response =? 500 then
        body <- _safe_json response ;;
        msg <- getitem body "message" ;;
        raise (HTTPError (VStr (status_message response msg)))
      else
        raise_for_status response ;;
        ret VNone)
     (log_and_reraise "get_images_with_label():"))%py.

Definition get_images_with_label (label : value) : M value :=
  retry (get_images_with_label_fn label).

Definition delete_images_fn : M value :=
  (try_except
     (u <- _build_url "/images" ;;
      response <- requests_delete u ;;
      body <- _safe_json response ;;
      if status_code response =? 200 then
        ret (VBool true)
      else
        msg <- getitem body "message" ;;
        raise (HTTPError (VStr (status_message response msg))))
     (log_and_reraise "delete_images():"))%py.

Definition delete_images : M value := retry delete_images_fn.

(** The API operations as one call interface: the function under the
    decorator, and the decorated function a caller reaches. *)
Inductive operation : Type :=
| Get_ping
| Get_users
| Get_images (userid : value)
| Post_image (userid : value) (local_filename : option string)
| Get_image (assetid : value) (local_filename : option string)
| Get_image_labels (assetid : value)
| Get_images_with_label (label : value)
| Delete_images.

Definition undecorated (op : operation) : M value :=
  match op with
  | Get_ping => get_ping_fn
  | Get_users => get_users_fn
  | Get_images userid => get_images_fn userid
  | Post_image userid local_filename => post_image_fn userid local_filename
  | Get_image assetid local_filename => get_image_fn assetid local_filename
  | Get_image_labels assetid => get_image_labels_fn assetid
  | Get_images_with_label label => get_images_with_label_fn label
  | Delete_images => delete_images_fn
  end.

Definition call (op : operation) : M value := retry (undecorated op).

End Client.

(** *** Worlds and servers used to state the claims *)

(** A world in which nothing has happened yet and the operating system
    lets every write through. *)
Definition fresh_world (base : string) (fs : string -> option node) : world :=
  {| WEB_SERVICE_URL := base; files := fs; write_failure := fun _ => None;
     sent := []; slept := []; attempts := 0; logged := [] |}.

(** A server that answers every request with the same response. *)
Definition always (r : response) : nat -> request -> outcome exn response :=
  fun _ _ => Ret r.

Definition no_such_assetid : response :=
  {| status_code := 400; reason := "Bad Request"; url := "";
     json_body := Some (VDict [("message", VStr "no such assetid")]) |}.

Definition server_error : response :=
  {| status_code := 500; reason := "Internal Server Error"; url := "";
     json_body := Some (VDict [("message", VStr "database unreachable")]) |}.

Definition uploaded : response :=
  {| status_code := 200; reason := "OK"; url := "";
     json_body := Some (VDict [("assetid", VInt 1001)]) |}.

Definition no_decoder : string -> option (list byte) := fun _ => None.

(** A directory that holds one file, of zero bytes. *)
Definition one_empty_file : string -> option node :=
  fun p => if String.eqb p "empty.jpg" then Some (File []) else None.

(** [local m]: [m] starts no attempt, does not sleep, sends nothing, and
    raises no exception the decorator would retry. *)
Definition local {A} (m : M A) : Prop :=
  forall w r w', m w = (r, w') ->
    attempts w' = attempts w /\ slept w' = slept w /\ sent w' = sent w /\
    forall e, r = Raise e -> retry_if_exception_type e = false.

(** [attempt m]: [m] starts no attempt of its own and does not sleep, it
    sends at most one request, and an exception of [m] that the
    decorator would retry is the one the transport raised. *)
Definition attempt {A} (net : nat -> request -> outcome exn response)
    (m : M A) : Prop :=
  forall w r w', m w = (r, w') ->
    attempts w' = attempts w /\ slept w' = slept w /\
    (sent w' = sent w \/ exists rq, sent w' = (sent w ++ [rq])%list) /\
    forall e, r = Raise e -> retry_if_exception_type e = true ->
      exists rq, net (List.length (sent w)) rq = Raise e.

(** A name all of whose characters are white space. *)
Definition blank (s : string) : bool := forallb isspace (list_ascii_of_string s).

(** What the validation of [post_image] rejects. *)
Definition rejected (w : world) (local_filename : option string) : Prop :=
  match local_filename with
  | None => True
  | Some name => blank name = true \/ isfile w name = false
  end.

(** The outcome of a call that failed before the network: a [ValueError],
    one attempt, nothing sent, nothing slept, no file touched. *)
Definition fails_fast (w : world) (res : outcome exn value * world) : Prop :=
  (exists msg, fst res = Raise (ValueError (VStr msg))) /\
  sent (snd res) = sent w /\ slept (snd res) = slept w /\
  attempts (snd res) = S (attempts w) /\ files (snd res) = files w.

(** *** Vocabulary of further statements about the client *)

(** What the client reads of its surroundings: the module variable, the
    file system, and what the operating system lets it write. *)
Definition env (w : world)
    : string * (string -> option node) * (value -> option string) :=
  (WEB_SERVICE_URL w, files w, write_failure w).

Fixpoint slashes (n : nat) : string :=
  match n with
  | O => ""
  | S n' => String "/"%char (slashes n')
  end.

(** The operations that fetch by id or label test the status before they
    parse the body. *)
Definition tests_status_first (op : operation) : bool :=
  match op with
  | Get_image _ _ | Get_image_labels _ | Get_images_with_label _ => true
  | _ => false
  end.

(** The columns the list operations take from each row. *)
Definition row_keys (op : operation) : option (list string) :=
  match op with
  | Get_users => Some ["userid"; "username"; "givenname"; "familyname"]
  | Get_images _ => Some ["assetid"; "userid"; "localname"; "bucketkey"]
  | Get_image_labels _ => Some ["label"; "confidence"]
  | Get_images_with_label _ => Some ["assetid"; "label"; "confidence"]
  | _ => None
  end.

Definition cell (key : string) (row : value) : option value :=
  match row with
  | VDict kvs => lookup key kvs
  | _ => None
  end.

(** A row that has all the columns, and the tuple made of them. *)
Definition complete (keys : list string) (row : value) : bool :=
  forallb (fun k => match cell k row with Some _ => true | None => false end) keys.

Definition project (keys : list string) (row : value) : value :=
  VTuple (map (fun k => match cell k row with Some v => v | None => VNone end) keys).

(** [keeps proj m]: [m] leaves the part [proj] of the world as it is. *)
Definition keeps {X A} (proj : world -> X) (m : M A) : Prop :=
  forall w, proj (snd (m w)) = proj w.

Definition is_get_image (op : operation) : bool :=
  match op with Get_image _ _ => true | _ => false end.

(** [reader m]: [m] leaves the world as it is, what it yields depends on
    these surroundings only, and it raises nothing the decorator
    retries. *)
Definition reader {A} (m : M A) : Prop :=
  forall w,
    snd (m w) = w /\
    (forall e, fst (m w) = Raise e -> retry_if_exception_type e = false) /\
    forall w2, env w2 = env w -> fst (m w2) = fst (m w).

(** [settled m]: [m] sends nothing and raises nothing the decorator
    retries, and its outcome and the surroundings it leaves depend on the
    surroundings only. *)
Definition settled {A} (m : M A) : Prop :=
  forall w,
    sent (snd (m w)) = sent w /\
    (forall e, fst (m w) = Raise e -> retry_if_exception_type e = false) /\
    forall w2, env w2 = env w ->
      fst (m w2) = fst (m w) /\ env (snd (m w2)) = env (snd (m w)).

(** [twin F]: two runs of the attempt [F], over two transports and in two
    worlds with the same surroundings.  Either neither run
    sends a request, and they end alike; or both send the same request,
    they end alike when the transports answer it alike, and an exception
    of the transport is the outcome of the run, with no file touched. *)
Definition twin {A} (F : (nat -> request -> outcome exn response) -> M A) : Prop :=
  forall net1 net2 w1 w2, env w1 = env w2 ->
    (sent (snd (F net1 w1)) = sent w1 /\ sent (snd (F net2 w2)) = sent w2 /\
     fst (F net1 w1) = fst (F net2 w2) /\
     env (snd (F net1 w1)) = env (snd (F net2 w2)))
    \/
    exists rq,
      sent (snd (F net1 w1)) = (sent w1 ++ [rq])%list /\
      sent (snd (F net2 w2)) = (sent w2 ++ [rq])%list /\
      (net1 (List.length (sent w1)) rq = net2 (List.length (sent w2)) rq ->
       fst (F net1 w1) = fst (F net2 w2) /\
       env (snd (F net1 w1)) = env (snd (F net2 w2))) /\
      (forall e, net1 (List.length (sent w1)) rq = Raise e ->
       fst (F net1 w1) = Raise e /\ env (snd (F net1 w1)) = env w1).

End PhotoApp.

(** ** The S3 download scripts: [labs/lab01/client-web-to-s3.py] and
       [labs/lab01/client-boto-to-s3.py] *)

Module Lab01.

Inductive exn : Type :=
| IndexError
| KeyError (key : string)
| NameError (name : string)        (* name 'name' is not defined *)
| RequestFailure (msg : string)    (* an exception of requests.get; msg is str(e) *)
| LibraryError (msg : string).     (* an exception of configparser, boto3 or input *)

(** [needle in hay] on strings. *)
Fixpoint contains_str (needle hay : string) : bool :=
  String.prefix needle hay ||
  match hay with
  | EmptyString => false
  | String _ hay' => contains_str needle hay'
  end.

(** [s.split('/')] *)
Fixpoint split_slash (s : string) : list string :=
  match s with
  | EmptyString => [EmptyString]
  | String c s' =>
      if Ascii.eqb c "/"%char then EmptyString :: split_slash s'
      else match split_slash s' with
           | hd :: tl => String c hd :: tl
           | [] => [String c EmptyString]
           end
  end.

(** The extension both scripts derive from the content type: it starts
    as "." and is extended in the first branch whose test holds. *)
Definition parsed_content_type (content_type : string) : outcome exn string :=
  if contains_str "jpeg" content_type then Ret ("." ++ "jpg")
  else if contains_str "text/plain" content_type then Ret ("." ++ "txt")
  else if contains_str "python" content_type then Ret ("." ++ "py")
  else if contains_str "application" content_type then
    match nth_error (split_slash content_type) 1 with
    | Some subtype => Ret ("." ++ subtype)
    | None => Raise IndexError
    end
  else Ret ("." ++ "unknown").

(** A response as the web script reads it: the status, the Content-Type
    header if there is one, and the body. *)
Record response : Type := mkResponse {
  status_code : Z;
  content_type : option string;
  content : list byte
}.

(** The requests made so far and the seconds slept. *)
Record world : Type := mkWorld {
  requests : nat;
  slept : list Z
}.

Definition start : world := {| requests := 0; slept := [] |}.

Definition max_retries : nat := 3.

(** [response.status_code in (200, 404)] *)
Definition in_200_404 (status : Z) : bool := (status =? 200) || (status =? 404).

Section WebClient.

(** What the [n]-th call of [requests.get(url)] does. *)
Variable net : nat -> outcome exn response.

(** The serializer of the error document,
    <Error><Message>str(e)</Message></Error>. *)
Variable error_document : string -> list byte.

Definition str_exn (e : exn) : string :=
  match e with
  | IndexError => "list index out of range"
  | KeyError k => "'" ++ k ++ "'"
  | NameError n => "name '" ++ n ++ "' is not defined"
  | RequestFailure msg => msg
  | LibraryError msg => msg
  end.

(** The response the script builds when the last attempt raises. *)
Definition error_response (e : exn) : response :=
  {| status_code := -1; content_type := None;
     content := error_document (str_exn e) |}.

(** The [finally] block of an iteration:
    [if retry < max_retries: time.sleep(retry); retry += 1]. *)
Definition finally_block (retry : nat) (w : world) : nat * world :=
  if (retry <? max_retries)%nat
  then (S retry, {| requests := requests w;
                    slept := (slept w ++ [Z.of_nat retry])%list |})
  else (retry, w).

(** The loop [while retry <= max_retries: try ... except ... finally ...].
    [Some] is a loop that was left, with the variable [response] and the
    world after it; [None] is a loop still running when the fuel is
    spent.  A [break] runs the [finally] block on its way out. *)
Fixpoint download_loop (fuel retry : nat) (response_var : option response)
    (w : world) : option (option response * world) :=
  match fuel with
  | O => None
  | S fuel' =>
      if (retry <=? max_retries)%nat then
        let w1 := {| requests := S (requests w); slept := slept w |} in
        match net (requests w) with
        | Ret r =>
            let (retry', w2) := finally_block retry w1 in
            if in_200_404 (status_code r)
            then Some (Some r, w2)
            else download_loop fuel' retry' (Some r) w2
        | Raise e =>
            let (retry', w2) := finally_block retry w1 in
            if (retry =? max_retries)%nat
            then Some (Some (error_response e), w2)
            else download_loop fuel' retry' response_var w2
        end
      else Some (response_var, w)
  end.

(** The script from [retry = 1] on. *)
Definition download (fuel : nat) : option (option response * world) :=
  download_loop fuel 1 None start.

(** A request that ends the loop: a response with status 200 or 404, or
    an exception once [retry] has reached [max_retries], that is from the
    third request on. *)
Definition ends_loop (n : nat) : bool :=
  match net n with
  | Ret r => in_200_404 (status_code r)
  | Raise _ => (2 <=? n)%nat
  end.

(** The response the script goes on with when request [n] ends the loop. *)
Definition final_response (n : nat) : response :=
  match net n with
  | Ret r => r
  | Raise e => error_response e
  end.

End WebClient.

(** [retry] as a function of the requests made. *)
Definition retry_at (n : nat) : nat := Nat.min (S n) 3.

(** The sleeps of the first [n] iterations: 1 and 2 seconds, whatever the
    iterations did. *)
Definition naps (n : nat) : list Z := firstn n [1; 2].

(** *** [client-boto-to-s3.py] *)

(** What the surroundings of the boto script do: the two reads of the
    configuration file, the creation of the S3 resource, the name the
    user types, the content type S3 reports for (bucket, key), and the
    download of key to a local file. *)
Record surroundings : Type := mkSurroundings {
  cfg_bucket_name : outcome exn string;
  cfg_region_name : outcome exn string;
  s3_resource : outcome exn unit;
  typed_imagename : outcome exn string;
  object_content_type : string -> string -> outcome exn string;
  download_file : string -> string -> string -> outcome exn unit
}.

(** The two variables the handler prints; [None] is a name not bound
    yet. *)
Record names : Type := mkNames {
  bucket_name : option string;
  region_name : option string
}.

Definition unbound : names := {| bucket_name := None; region_name := None |}.

Inductive report : Type :=
| Downloaded (local_filename : string)               (* "Success, image downloaded to ..." *)
| Reported (bucket region msg : string).             (* "ERROR: Bucket: .. Region: .. Msg: .." *)

Definition BotoM := Py.M names exn.

Definition library {A} (o : outcome exn A) : BotoM A := fun vars => (o, vars).

Definition set_bucket_name (v : string) : BotoM unit :=
  fun vars => (Ret tt, {| bucket_name := Some v; region_name := region_name vars |}).

Definition set_region_name (v : string) : BotoM unit :=
  fun vars => (Ret tt, {| bucket_name := bucket_name vars; region_name := Some v |}).

(** Reading a variable: a [NameError] when it is not bound. *)
Definition read_name (get : names -> option string) (name : string) : BotoM string :=
  fun vars =>
    match get vars with
    | Some v => (Ret v, vars)
    | None => (Raise (NameError name), vars)
    end.

(** The script: everything in one [try], and a handler that prints the
    bucket, the region and the message. *)
Definition boto_script (s : surroundings) : BotoM report :=
  (try_except
     (b <- library (cfg_bucket_name s) ;;
      set_bucket_name b ;;
      r <- library (cfg_region_name s) ;;
      set_region_name r ;;
      library (s3_resource s) ;;
      bucket <- read_name bucket_name "bucket_name" ;;
      imagename <- library (typed_imagename s) ;;
      bucket' <- read_name bucket_name "bucket_name" ;;
      object_metadata <- library (object_content_type s bucket' imagename) ;;
      ext <- library (parsed_content_type object_metadata) ;;
      let local_filename := imagename ++ ext in
      library (download_file s bucket imagename local_filename) ;;
      ret (Downloaded local_filename))
     (fun err =>
        b <- read_name bucket_name "bucket_name" ;;
        r <- read_name region_name "region_name" ;;
        ret (Reported b r (str_exn err))))%py.

End Lab01.

(** ** Properties of the mapping store *)

Module ShortenFacts.
Import Shorten.
Local Open Scope list_scope.

(** *** One case per fault pattern *)

Ltac unfold_store :=
  unfold get_url, get_stats, put_shorturl, put_reset, get_dbConn, begin, cursor,
    driver_call, execute, fetchone, commit, rollback, close_if_not_None,
    try_finally, try_except, bind, ret, raise, record, at_rest.

Lemma ShortUrl_bump (k : string) (r : row) : ShortUrl (bump k r) = ShortUrl r.
Proof. unfold bump. destruct (String.eqb (ShortUrl r) k); reflexivity. Qed.

Lemma LongUrl_bump (k : string) (r : row) : LongUrl (bump k r) = LongUrl r.
Proof. unfold bump. destruct (String.eqb (ShortUrl r) k); reflexivity. Qed.

Lemma filter_bump (k : string) (t : LinksTable) :
  filter (has_key k) (map (bump k) t) = map (bump k) (filter (has_key k) t).
Proof.
  induction t as [|r t IH]; cbn [filter map]; auto.
  replace (has_key k (bump k r)) with (has_key k r)
    by (unfold has_key; now rewrite ShortUrl_bump).
  destruct (has_key k r); cbn [map]; rewrite IH; reflexivity.
Qed.

Lemma get_url_cases (f : faults) (k : string) (t : LinksTable) :
  let '(r, d') := get_url f k (at_rest t) in
  session d' = None /\
  if get_url_fault f
  then committed d' = t /\ (r = Ret "" \/ exists e, r = Raise e)
  else committed d' = map (bump k) t /\ r = Ret (stored_longurl k t).
Proof.
  unfold get_url_fault.
  unfold_store. simpl.
  destruct (f Connect) eqn:F1; simpl.
  { split; auto. split; auto. right; eauto. }
  destruct (f Begin) eqn:F2; simpl.
  { destruct (f Rollback); simpl; split; auto; split; auto; right; eauto. }
  destruct (f Cursor) eqn:F3; simpl.
  { destruct (f Rollback); simpl; split; auto; split; auto; right; eauto. }
  destruct (f (Execute KUpdate)) eqn:F4; simpl.
  { destruct (f Rollback); simpl; split; auto; split; auto; right; eauto. }
  destruct (f (Execute KSelectLong)) eqn:F5; simpl.
  { destruct (f Rollback); simpl; split; auto; split; auto; right; eauto. }
  destruct (f Fetchone) eqn:F6; simpl.
  { destruct (f Rollback); simpl; split; auto; split; auto; right; eauto. }
  rewrite filter_bump. unfold stored_longurl.
  destruct (filter (has_key k) t) as [|r0 rs] eqn:Ef; simpl;
    destruct (f Commit) eqn:F7; simpl;
    try (destruct (f Rollback); simpl); split; auto; split; auto; try (right; eauto; fail).
  all: now rewrite LongUrl_bump.
Qed.

Lemma get_stats_cases (f : faults) (k : string) (t : LinksTable) :
  let '(r, d') := get_stats f k (at_rest t) in
  session d' = None /\ committed d' = t /\ writes (trace d') = [] /\
  ~ In Commit (trace d') /\
  r = Ret (if get_stats_fault f then -1 else stored_count k t).
Proof.
  unfold get_stats_fault, stored_count.
  unfold_store. simpl.
  destruct (f Connect) eqn:F1; simpl.
  { intuition congruence. }
  destruct (f Cursor) eqn:F2; simpl.
  { intuition congruence. }
  destruct (f (Execute KSelectCount)) eqn:F3; simpl.
  { intuition congruence. }
  destruct (f Fetchone) eqn:F4; simpl.
  { intuition congruence. }
  destruct (filter (has_key k) t) as [|r0 rs]; simpl; intuition congruence.
Qed.

Lemma writes_app (tr1 tr2 : list db_call) :
  writes (tr1 ++ tr2) = (writes tr1 ++ writes tr2)%list.
Proof. apply filter_app. Qed.

Ltac finish_case :=
  cbn [committed session trace results fst snd];
  repeat rewrite writes_app; cbn [writes filter is_write app];
  repeat rewrite app_nil_r;
  unfold failed;
  repeat split; auto; try (right; eexists; reflexivity).

Lemma put_shorturl_cases (f : faults) (l k : string) (d : database) :
  let '(r, d') := put_shorturl f l k d in
  (session d = None -> session d' = None) /\
  match filter (has_key k) (committed d) with
  | r0 :: _ =>
      committed d' = committed d /\ writes (trace d') = writes (trace d) /\
      if confirm_fault f then failed false r
      else r = Ret (String.eqb (LongUrl r0) l)
  | [] =>
      if insert_fault f
      then committed d' = committed d /\ failed false r
      else committed d' = (committed d ++ [new_row k l])%list /\ r = Ret true
  end.
Proof.
  unfold confirm_fault, insert_fault, new_row.
  unfold_store. cbn [committed session trace results].
  destruct (f Connect) eqn:F1; cbn.
  { destruct (filter _ _); finish_case. }
  destruct (f Begin) eqn:F2; cbn.
  { destruct (f Rollback); destruct (filter _ _); finish_case. }
  destruct (f Cursor) eqn:F3; cbn.
  { destruct (f Rollback); destruct (filter _ _); finish_case. }
  destruct (f (Execute KSelectLong)) eqn:F4; cbn.
  { destruct (f Rollback); destruct (filter _ _); finish_case. }
  destruct (f Fetchone) eqn:F5; cbn.
  { destruct (f Rollback); destruct (filter _ _); finish_case. }
  destruct (filter (has_key k) (committed d)) as [|r0 rs] eqn:Ef; cbn.
  - destruct (f (Execute KInsert)) eqn:F6; cbn.
    { destruct (f Rollback); finish_case. }
    destruct (f Commit) eqn:F7; cbn.
    { destruct (f Rollback); finish_case. }
    finish_case.
  - destruct (String.eqb (LongUrl r0) l) eqn:El; cbn;
      destruct (f Commit) eqn:F7; cbn;
      try (destruct (f Rollback); cbn); finish_case.
Qed.

Lemma put_reset_cases (f : faults) (d : database) :
  let '(r, d') := put_reset f d in
  (session d = None -> session d' = None) /\
  if reset_fault f
  then committed d' = committed d /\ failed false r
  else committed d' = [] /\ r = Ret true.
Proof.
  unfold reset_fault.
  unfold_store. cbn [committed session trace results].
  destruct (f Connect) eqn:F1; cbn.
  { finish_case. }
  destruct (f Begin) eqn:F2; cbn.
  { destruct (f Rollback); finish_case. }
  destruct (f Cursor) eqn:F3; cbn.
  { destruct (f Rollback); finish_case. }
  destruct (f (Execute KDelete)) eqn:F4; cbn.
  { destruct (f Rollback); finish_case. }
  destruct (f Commit) eqn:F7; cbn.
  { destruct (f Rollback); finish_case. }
  finish_case.
Qed.

(** *** Tables with unique keys *)

Lemma filter_absent (k : string) (t : LinksTable) :
  ~ In k (map ShortUrl t) -> filter (has_key k) t = [].
Proof.
  induction t as [|r t IH]; cbn [filter map In]; intros H; auto.
  unfold has_key at 1.
  destruct (String.eqb_spec (ShortUrl r) k) as [E|E].
  - exfalso; apply H; now left.
  - apply IH. intros Hin; apply H; now right.
Qed.

Lemma filter_unique (r : row) (t : LinksTable) :
  unique_keys t -> In r t -> filter (has_key (ShortUrl r)) t = [r].
Proof.
  unfold unique_keys.
  induction t as [|r' t IH]; cbn [filter map In]; intros Hnd Hin; [contradiction|].
  inversion Hnd as [|x xs Hnotin Hnd' ]; subst.
  destruct Hin as [->|Hin].
  - unfold has_key at 1. rewrite String.eqb_refl.
    now rewrite (filter_absent _ _ Hnotin).
  - unfold has_key at 1.
    destruct (String.eqb_spec (ShortUrl r') (ShortUrl r)) as [E|E].
    + exfalso. apply Hnotin. rewrite E. now apply in_map.
    + now apply IH.
Qed.

Lemma same_key_same_row (t : LinksTable) (r0 r1 : row) :
  unique_keys t -> In r0 t -> In r1 t -> ShortUrl r1 = ShortUrl r0 -> r1 = r0.
Proof.
  intros Hu H0 H1 E.
  pose proof (filter_unique r0 t Hu H0) as F0.
  assert (Hin : In r1 (filter (has_key (ShortUrl r0)) t)).
  { apply filter_In. split; auto. unfold has_key. now apply String.eqb_eq. }
  rewrite F0 in Hin. destruct Hin as [->|[]]. reflexivity.
Qed.

Lemma unique_keys_bump (k : string) (t : LinksTable) :
  unique_keys t -> unique_keys (map (bump k) t).
Proof.
  unfold unique_keys. rewrite map_map.
  rewrite (map_ext (fun x => ShortUrl (bump k x)) ShortUrl); [auto|].
  intros r; apply ShortUrl_bump.
Qed.

Lemma unique_keys_insert (k l : string) (t : LinksTable) :
  unique_keys t -> filter (has_key k) t = [] -> unique_keys (t ++ [new_row k l]).
Proof.
  unfold unique_keys. intros Hu Hf.
  rewrite map_app. cbn [map new_row ShortUrl].
  apply NoDup_app; [exact Hu | repeat constructor; intros [] | ].
  intros x Hx [E|[]]. subst x.
  apply in_map_iff in Hx. destruct Hx as [r [Er Hr]].
  assert (Hin : In r (filter (has_key k) t)).
  { apply filter_In. split; auto. unfold has_key. now apply String.eqb_eq. }
  rewrite Hf in Hin. exact Hin.
Qed.

(** *** The claims about the mapping store *)

(** The scenario of the specification, on a database that does not fail:
    insert, look up (the counter becomes 1), a second insert under the
    taken key, reset, look up again. *)
Example store_scenario :
  let d0 := at_rest [] in
  let '(r1, d1) := put_shorturl no_faults "http://example.com" "abc" d0 in
  let '(r2, d2) := get_url no_faults "abc" d1 in
  let '(r3, d3) := get_stats no_faults "abc" d2 in
  let '(r4, d4) := put_shorturl no_faults "http://other.com" "abc" d3 in
  let '(r5, d5) := put_reset no_faults d4 in
  let '(r6, d6) := get_url no_faults "abc" d5 in
  r1 = Ret true /\ r2 = Ret "http://example.com" /\ r3 = Ret 1 /\
  committed d4 = [mkRow "abc" "http://example.com" 1] /\
  r4 = Ret false /\ r5 = Ret true /\ r6 = Ret "" /\ committed d6 = [].
Proof. cbn. repeat split. Qed.

(** C1 (the code departs from the claim).  When no connection can be
    obtained, [get_dbConn] hands back [None]; the handlers of [get_url],
    [put_shorturl] and [put_reset] then call [rollback] on [None], and the
    resulting [AttributeError] leaves the operation instead of the failure
    value.  When the connection is lost during a statement, the rollback in
    the handler raises in turn and the driver's error reaches the caller.
    Only [get_stats], whose handler makes no call, always returns -1. *)
Theorem failure_escapes_the_store (l k : string) (t : LinksTable) :
  fst (get_url connect_fails k (at_rest t)) = Raise (AttributeError "rollback") /\
  fst (put_shorturl connect_fails l k (at_rest t)) = Raise (AttributeError "rollback") /\
  fst (put_reset connect_fails (at_rest t)) = Raise (AttributeError "rollback") /\
  fst (get_stats connect_fails k (at_rest t)) = Ret (-1) /\
  fst (get_url connection_lost k (at_rest t)) = Raise (DatabaseError Rollback) /\
  fst (put_shorturl connection_lost l k (at_rest t)) = Raise (DatabaseError Rollback) /\
  fst (put_reset connection_lost (at_rest t)) = Raise (DatabaseError Rollback).
Proof. repeat split; reflexivity. Qed.

(** X3.  The handlers do absorb every failure when a connection was obtained
    and the rollback itself goes through. *)
Lemma failure_absorbed_when_rollback_works (f : faults) (op : operation) (d : database) :
  f Connect = false -> f Rollback = false ->
  exists a, fst (call f op d) = Ret a.
Proof.
  intros F1 F2. destruct op; unfold call; unfold_store;
    cbn [committed session trace results]; rewrite F1; cbn.
  - destruct (f Begin); cbn; rewrite ?F2; cbn; eauto.
    destruct (f Cursor); cbn; rewrite ?F2; cbn; eauto.
    destruct (f (Execute KUpdate)); cbn; rewrite ?F2; cbn; eauto.
    destruct (f (Execute KSelectLong)); cbn; rewrite ?F2; cbn; eauto.
    destruct (f Fetchone); cbn; rewrite ?F2; cbn; eauto.
    destruct (filter _ _); cbn; destruct (f Commit); cbn; rewrite ?F2; cbn; eauto.
  - destruct (f Cursor); cbn; eauto.
    destruct (f (Execute KSelectCount)); cbn; eauto.
    destruct (f Fetchone); cbn; eauto.
    destruct (filter _ _); cbn; eauto.
  - destruct (f Begin); cbn; rewrite ?F2; cbn; eauto.
    destruct (f Cursor); cbn; rewrite ?F2; cbn; eauto.
    destruct (f (Execute KSelectLong)); cbn; rewrite ?F2; cbn; eauto.
    destruct (f Fetchone); cbn; rewrite ?F2; cbn; eauto.
    destruct (filter _ _); cbn.
    + destruct (f (Execute KInsert)); cbn; rewrite ?F2; cbn; eauto.
      destruct (f Commit); cbn; rewrite ?F2; cbn; eauto.
    + destruct (String.eqb _ _); cbn; destruct (f Commit); cbn; rewrite ?F2; cbn; eauto.
  - destruct (f Begin); cbn; rewrite ?F2; cbn; eauto.
    destruct (f Cursor); cbn; rewrite ?F2; cbn; eauto.
    destruct (f (Execute KDelete)); cbn; rewrite ?F2; cbn; eauto.
    destruct (f Commit); cbn; rewrite ?F2; cbn; eauto.
Qed.

Lemma first_row_with_key {A} (k : string) (t : LinksTable) (g : row -> A) (d : A) :
  match filter (has_key k) t with r :: _ => g r | [] => d end =
  match find (fun r => String.eqb (ShortUrl r) k) t with Some r => g r | None => d end.
Proof.
  induction t as [|r t IH]; cbn [filter find]; [reflexivity|].
  unfold has_key at 1. destruct (String.eqb (ShortUrl r) k); [reflexivity|exact IH].
Qed.

(** C2.  Whatever fails and whatever the table holds, [get_url] ends in
    one of two ways.  When none of its calls on the driver fails, it
    returns the long URL of the first row with the key (the empty string
    when there is none), and the committed table is the old one, row by
    row, with [LookedUpCount + 1] in the rows of the key and every other
    row and column as it was.  Otherwise it reports failure (the empty
    string, or an exception), the committed table is the old one, and the
    connection's uncommitted view, with the increment in it, is gone. *)
Theorem get_url_increment_is_atomic (f : faults) (k : string) (t : LinksTable) :
  let '(r, d') := get_url f k (at_rest t) in
  (get_url_fault f = false /\
   r = Ret (match find (fun r0 => String.eqb (ShortUrl r0) k) t with
            | Some r0 => LongUrl r0
            | None => ""
            end) /\
   committed d' =
     map (fun r0 => if String.eqb (ShortUrl r0) k
                    then mkRow (ShortUrl r0) (LongUrl r0) (LookedUpCount r0 + 1)
                    else r0) t)
  \/
  (get_url_fault f = true /\
   (r = Ret "" \/ exists e, r = Raise e) /\
   committed d' = t /\ session d' = None).
Proof.
  pose proof (get_url_cases f k t) as H.
  destruct (get_url f k (at_rest t)) as [r d'].
  destruct H as [Hs H]. destruct (get_url_fault f).
  - right. tauto.
  - left. destruct H as [Hc ->]. split; [reflexivity|]. split; [|exact Hc].
    unfold stored_longurl. now rewrite first_row_with_key.
Qed.

(** C3.  On a table without the key and with a database that does not
    fail, two calls of [put_shorturl] with the same pair both return
    [True]; afterwards the table has exactly one row for the key, with the
    given long URL and counter zero, and the second call changed nothing. *)
Theorem put_shorturl_idempotent (l k : string) (t : LinksTable) :
  ~ In k (map ShortUrl t) ->
  let '(r1, d1) := put_shorturl no_faults l k (at_rest t) in
  let '(r2, d2) := put_shorturl no_faults l k d1 in
  r1 = Ret true /\ r2 = Ret true /\
  filter (has_key k) (committed d2) = [ {| ShortUrl := k; LongUrl := l; LookedUpCount := 0 |} ] /\
  committed d2 = committed d1 /\
  committed d1 = t ++ [ {| ShortUrl := k; LongUrl := l; LookedUpCount := 0 |} ].
Proof.
  intros Habs.
  pose proof (put_shorturl_cases no_faults l k (at_rest t)) as H1.
  destruct (put_shorturl no_faults l k (at_rest t)) as [r1 d1].
  cbn [committed at_rest] in H1.
  rewrite (filter_absent k t Habs) in H1. cbn in H1.
  destruct H1 as [_ [Hc1 Hr1]].
  pose proof (put_shorturl_cases no_faults l k d1) as H2.
  destruct (put_shorturl no_faults l k d1) as [r2 d2].
  assert (Hf : filter (has_key k) (committed d1) = [new_row k l]).
  { rewrite Hc1, filter_app, (filter_absent k t Habs). cbn.
    unfold has_key, new_row; cbn. now rewrite String.eqb_refl. }
  rewrite Hf in H2. cbn in H2. rewrite String.eqb_refl in H2.
  destruct H2 as [_ [Hc2 [_ Hr2]]].
  repeat split; auto.
  now rewrite Hc2, Hf.
Qed.

Lemma put_shorturl_idempotent_witness :
  ~ In "abc" (map ShortUrl []) /\
  let '(r1, d1) := put_shorturl no_faults "http://example.com" "abc" (at_rest []) in
  let '(r2, d2) := put_shorturl no_faults "http://example.com" "abc" d1 in
  r1 = Ret true /\ r2 = Ret true /\
  filter (has_key "abc") (committed d2) =
    [ {| ShortUrl := "abc"; LongUrl := "http://example.com"; LookedUpCount := 0 |} ] /\
  committed d2 = committed d1 /\
  committed d1 = [] ++ [ {| ShortUrl := "abc"; LongUrl := "http://example.com"; LookedUpCount := 0 |} ].
Proof.
  split; [intros [] | apply (put_shorturl_idempotent "http://example.com" "abc" []); intros []].
Defined.

(** C4.  If the table holds the row (shorturl, L, c) and L' differs from
    L, [put_shorturl L' shorturl] returns [False] on a database that does
    not fail, and whatever fails the committed table stays as it was: the
    row is still there and no INSERT, UPDATE or DELETE is executed. *)
Theorem put_shorturl_taken (f : faults) (k L L' : string) (c : Z) (t : LinksTable) :
  unique_keys t -> In (mkRow k L c) t -> L' <> L ->
  fst (put_shorturl no_faults L' k (at_rest t)) = Ret false /\
  committed (snd (put_shorturl f L' k (at_rest t))) = t /\
  In (mkRow k L c) (committed (snd (put_shorturl f L' k (at_rest t)))) /\
  writes (trace (snd (put_shorturl f L' k (at_rest t)))) = [] /\
  fst (put_shorturl f L' k (at_rest t)) <> Ret true.
Proof.
  intros Hu Hin Hne.
  pose proof (filter_unique _ _ Hu Hin) as Hf. cbn [ShortUrl] in Hf.
  pose proof (put_shorturl_cases no_faults L' k (at_rest t)) as H0.
  pose proof (put_shorturl_cases f L' k (at_rest t)) as H1.
  destruct (put_shorturl no_faults L' k (at_rest t)) as [r0 d0].
  destruct (put_shorturl f L' k (at_rest t)) as [r1 d1].
  cbn [committed at_rest trace fst snd] in *.
  rewrite Hf in H0, H1. cbn [LongUrl] in *.
  assert (El : String.eqb L L' = false).
  { apply String.eqb_neq. congruence. }
  rewrite El in H0, H1.
  destruct H0 as [_ [_ [_ H0]]]. cbn in H0.
  destruct H1 as [_ [Hc [Hw H1]]].
  repeat split; auto.
  - now rewrite Hc.
  - destruct (confirm_fault f); [destruct H1 as [->|[e ->]]|rewrite H1]; discriminate.
Qed.

Lemma put_shorturl_taken_witness :
  let t := [mkRow "abc" "http://example.com" 1] in
  let L' := "http://other.com" in
  (unique_keys t /\ In (mkRow "abc" "http://example.com" 1) t /\
   L' <> "http://example.com") /\
  fst (put_shorturl no_faults L' "abc" (at_rest t)) = Ret false /\
  committed (snd (put_shorturl connection_lost L' "abc" (at_rest t))) = t /\
  In (mkRow "abc" "http://example.com" 1)
     (committed (snd (put_shorturl connection_lost L' "abc" (at_rest t)))) /\
  writes (trace (snd (put_shorturl connection_lost L' "abc" (at_rest t)))) = [] /\
  fst (put_shorturl connection_lost L' "abc" (at_rest t)) <> Ret true.
Proof.
  intros t L'.
  assert (Hu : unique_keys t) by (repeat constructor; intros []).
  assert (Hin : In (mkRow "abc" "http://example.com" 1) t) by (now left).
  assert (Hne : L' <> "http://example.com") by discriminate.
  split; [tauto|].
  exact (put_shorturl_taken connection_lost "abc" "http://example.com" L' 1 t Hu Hin Hne).
Defined.

Lemma row_kept_same op r r0 : row_kept op r r0 r0.
Proof. unfold row_kept. repeat split; try lia. Qed.

Lemma counters_nonneg_bump (k : string) (t : LinksTable) :
  counters_nonneg t -> counters_nonneg (map (bump k) t).
Proof.
  unfold counters_nonneg. intros H r Hr.
  apply in_map_iff in Hr. destruct Hr as [r0 [<- Hr0]].
  specialize (H r0 Hr0). unfold bump.
  destruct (String.eqb (ShortUrl r0) k); cbn; lia.
Qed.

Lemma counters_nonneg_insert (k l : string) (t : LinksTable) :
  counters_nonneg t -> counters_nonneg (t ++ [new_row k l]).
Proof.
  unfold counters_nonneg. intros H r Hr.
  apply in_app_or in Hr. destruct Hr as [Hr|[<-|[]]]; [now apply H|cbn; lia].
Qed.

(** C9.  On a table that satisfies the schema (unique keys, counters not
    negative), every operation, whatever fails, leaves a table that
    satisfies the schema, and for a row whose key is there before and
    after: the long URL is the same, the counter did not go down, and a
    counter that went up went up by one, in a [get_url] of that very key
    that returned the row's long URL. *)
Theorem store_invariant (f : faults) (op : operation) (t : LinksTable) :
  unique_keys t -> counters_nonneg t ->
  let '(r, d') := call f op (at_rest t) in
  unique_keys (committed d') /\ counters_nonneg (committed d') /\
  forall r0 r1, In r0 t -> In r1 (committed d') -> ShortUrl r1 = ShortUrl r0 ->
    row_kept op r r0 r1.
Proof.
  intros Hu Hn.
  assert (Same : forall r, forall r0 r1, In r0 t -> In r1 t ->
                   ShortUrl r1 = ShortUrl r0 -> row_kept op r r0 r1).
  { intros r r0 r1 H0 H1 E. rewrite (same_key_same_row t r0 r1 Hu H0 H1 E).
    apply row_kept_same. }
  destruct op as [k|k|l k|]; unfold call, bind.
  - pose proof (get_url_cases f k t) as H.
    destruct (get_url f k (at_rest t)) as [r d'].
    destruct H as [_ H].
    destruct (get_url_fault f).
    + destruct H as [Hc [->|[e ->]]]; cbn; rewrite Hc; auto.
    + destruct H as [Hc ->]. cbn. rewrite Hc.
      split; [now apply unique_keys_bump|].
      split; [now apply counters_nonneg_bump|].
      intros r0 r1 H0 H1 E.
      apply in_map_iff in H1. destruct H1 as [r' [<- Hr']].
      rewrite ShortUrl_bump in E.
      rewrite (same_key_same_row t r0 r' Hu H0 Hr' E).
      unfold row_kept. rewrite LongUrl_bump.
      unfold bump. destruct (String.eqb_spec (ShortUrl r0) k) as [Ek|Ek]; cbn.
      * split; [reflexivity|]. split; [lia|]. intros _.
        subst k. unfold stored_longurl.
        rewrite (filter_unique r0 t Hu H0). auto.
      * repeat split; try lia.
  - pose proof (get_stats_cases f k t) as H.
    destruct (get_stats f k (at_rest t)) as [r d'].
    destruct H as [_ [Hc [_ [_ ->]]]]. cbn. rewrite Hc. auto.
  - pose proof (put_shorturl_cases f l k (at_rest t)) as H.
    destruct (put_shorturl f l k (at_rest t)) as [r d'].
    cbn [committed at_rest] in H. destruct H as [_ H].
    destruct (filter (has_key k) t) as [|x xs] eqn:Ef.
    + destruct (insert_fault f).
      * destruct H as [Hc [->|[e ->]]]; cbn; rewrite Hc; auto.
      * destruct H as [Hc ->]. cbn. rewrite Hc.
        split; [now apply unique_keys_insert|].
        split; [now apply counters_nonneg_insert|].
        intros r0 r1 H0 H1 E.
        apply in_app_or in H1. destruct H1 as [H1|[<-|[]]]; [now apply Same|].
        exfalso. cbn in E.
        assert (Hin : In r0 (filter (has_key k) t)).
        { apply filter_In. split; auto. unfold has_key. now apply String.eqb_eq. }
        rewrite Ef in Hin. exact Hin.
    + destruct H as [Hc [_ H]].
      destruct (confirm_fault f); [destruct H as [->|[e ->]]|rewrite H];
        cbn; rewrite Hc; auto.
  - pose proof (put_reset_cases f (at_rest t)) as H.
    destruct (put_reset f (at_rest t)) as [r d'].
    cbn [committed at_rest] in H. destruct H as [_ H].
    destruct (reset_fault f).
    + destruct H as [Hc [->|[e ->]]]; cbn; rewrite Hc; auto.
    + destruct H as [Hc ->]. cbn. rewrite Hc.
      split; [constructor|]. split; [intros ? []|]. intros ? ? ? [].
Qed.

Lemma store_invariant_witness :
  let t := [mkRow "abc" "http://example.com" 0] in
  (unique_keys t /\ counters_nonneg t) /\
  let '(r, d') := call no_faults (Get_url "abc") (at_rest t) in
  unique_keys (committed d') /\ counters_nonneg (committed d') /\
  forall r0 r1, In r0 t -> In r1 (committed d') -> ShortUrl r1 = ShortUrl r0 ->
    row_kept (Get_url "abc") r r0 r1.
Proof.
  intros t.
  assert (Hu : unique_keys t) by (repeat constructor; intros []).
  assert (Hn : counters_nonneg t) by (intros r [<-|[]]; cbn; lia).
  split; [tauto|].
  exact (store_invariant no_faults (Get_url "abc") t Hu Hn).
Defined.

(** What the SELECT statements find in a table with unique keys. *)
Lemma stored_count_present (r : row) (t : LinksTable) :
  unique_keys t -> In r t -> stored_count (ShortUrl r) t = LookedUpCount r.
Proof.
  intros Hu Hin. unfold stored_count. now rewrite (filter_unique r t Hu Hin).
Qed.

Lemma stored_count_absent (k : string) (t : LinksTable) :
  ~ In k (map ShortUrl t) -> stored_count k t = -1.
Proof.
  intros H. unfold stored_count. now rewrite (filter_absent k t H).
Qed.

Lemma stored_longurl_present (r : row) (t : LinksTable) :
  unique_keys t -> In r t -> stored_longurl (ShortUrl r) t = LongUrl r.
Proof.
  intros Hu Hin. unfold stored_longurl. now rewrite (filter_unique r t Hu Hin).
Qed.

Lemma stored_longurl_absent (k : string) (t : LinksTable) :
  ~ In k (map ShortUrl t) -> stored_longurl k t = "".
Proof.
  intros H. unfold stored_longurl. now rewrite (filter_absent k t H).
Qed.

(** C10.  On a table with unique keys [get_stats] returns the stored
    counter of the key's row, and -1 when there is no such row; when
    anything fails it returns -1 as well, so that the caller cannot tell a
    failure from an absent key.  It leaves the committed table as it was
    and executes no INSERT, UPDATE or DELETE and no commit. *)
Theorem get_stats_reads_only (f : faults) (k : string) (t : LinksTable) :
  unique_keys t ->
  let '(r, d') := get_stats f k (at_rest t) in
  (get_stats_fault f = false ->
   forall r0, In r0 t -> ShortUrl r0 = k -> r = Ret (LookedUpCount r0)) /\
  (get_stats_fault f = false -> ~ In k (map ShortUrl t) -> r = Ret (-1)) /\
  (get_stats_fault f = true -> r = Ret (-1)) /\
  committed d' = t /\ writes (trace d') = [] /\ ~ In Commit (trace d').
Proof.
  intros Hu.
  pose proof (get_stats_cases f k t) as H.
  destruct (get_stats f k (at_rest t)) as [r d'].
  destruct H as (_ & Hc & Hw & Hn & ->).
  repeat split; auto.
  - intros -> r0 Hin <-. now rewrite (stored_count_present r0 t Hu Hin).
  - intros -> Habs. now rewrite (stored_count_absent k t Habs).
  - intros ->. reflexivity.
Qed.

Lemma get_stats_reads_only_witness :
  let t := [mkRow "abc" "http://example.com" 3] in
  unique_keys t /\
  let '(r, d') := get_stats no_faults "abc" (at_rest t) in
  (get_stats_fault no_faults = false ->
   forall r0, In r0 t -> ShortUrl r0 = "abc" -> r = Ret (LookedUpCount r0)) /\
  (get_stats_fault no_faults = false -> ~ In "abc" (map ShortUrl t) -> r = Ret (-1)) /\
  (get_stats_fault no_faults = true -> r = Ret (-1)) /\
  committed d' = t /\ writes (trace d') = [] /\ ~ In Commit (trace d').
Proof.
  intros t.
  assert (Hu : unique_keys t) by (repeat constructor; intros []).
  split; [exact Hu|].
  exact (get_stats_reads_only no_faults "abc" t Hu).
Defined.

(** *** Further properties of the mapping store *)

(** The two reading operations from any state of the database. *)
Lemma get_url_from (f : faults) (k : string) (d : database) :
  let '(r, d') := get_url f k d in
  (session d = None -> session d' = None) /\
  if get_url_fault f
  then committed d' = committed d /\ failed "" r
  else committed d' = map (bump k) (committed d) /\
       r = Ret (stored_longurl k (committed d)).
Proof.
  unfold get_url_fault, stored_longurl.
  unfold_store. cbn [committed session trace results].
  destruct (f Connect) eqn:F1; cbn.
  { finish_case. }
  destruct (f Begin) eqn:F2; cbn.
  { destruct (f Rollback); finish_case. }
  destruct (f Cursor) eqn:F3; cbn.
  { destruct (f Rollback); finish_case. }
  destruct (f (Execute KUpdate)) eqn:F4; cbn.
  { destruct (f Rollback); finish_case. }
  destruct (f (Execute KSelectLong)) eqn:F5; cbn.
  { destruct (f Rollback); finish_case. }
  destruct (f Fetchone) eqn:F6; cbn.
  { destruct (f Rollback); finish_case. }
  rewrite filter_bump.
  destruct (filter (has_key k) (committed d)) as [|r0 rs]; cbn;
    destruct (f Commit) eqn:F7; cbn;
    try (destruct (f Rollback); cbn); finish_case.
  all: now rewrite LongUrl_bump.
Qed.

Lemma get_stats_from (f : faults) (k : string) (d : database) :
  let '(r, d') := get_stats f k d in
  (session d = None -> session d' = None) /\ committed d' = committed d /\
  r = Ret (if get_stats_fault f then -1 else stored_count k (committed d)).
Proof.
  unfold get_stats_fault, stored_count.
  unfold_store. cbn [committed session trace results].
  destruct (f Connect) eqn:F1; cbn.
  { finish_case. }
  destruct (f Cursor) eqn:F2; cbn.
  { finish_case. }
  destruct (f (Execute KSelectCount)) eqn:F3; cbn.
  { finish_case. }
  destruct (f Fetchone) eqn:F4; cbn.
  { finish_case. }
  destruct (filter (has_key k) (committed d)) as [|r0 rs]; cbn; finish_case.
Qed.

(** What one call can do to the committed table, whatever fails. *)
Lemma call_from (f : faults) (op : operation) (d : database) :
  let d' := snd (call f op d) in
  (session d = None -> session d' = None) /\
  (committed d' = committed d \/
   (exists k, op = Get_url k /\ committed d' = map (bump k) (committed d)) \/
   (exists l k, op = Put_shorturl l k /\ filter (has_key k) (committed d) = [] /\
                committed d' = committed d ++ [new_row k l]) \/
   (op = Put_reset /\ committed d' = [])).
Proof.
  destruct op as [k|k|l k|]; unfold call, bind; cbn zeta.
  - pose proof (get_url_from f k d) as H.
    destruct (get_url f k d) as [[s|e] d']; cbn; destruct H as [Hs H];
      (split; [exact Hs|]); destruct (get_url_fault f); destruct H as [Hc _]; eauto.
  - pose proof (get_stats_from f k d) as H.
    destruct (get_stats f k d) as [[s|e] d']; cbn; destruct H as (Hs & Hc & _);
      (split; [exact Hs|]); auto.
  - pose proof (put_shorturl_cases f l k d) as H.
    destruct (put_shorturl f l k d) as [[s|e] d']; cbn; destruct H as [Hs H];
      (split; [exact Hs|]);
      destruct (filter (has_key k) (committed d)) eqn:Ef;
      try (destruct (insert_fault f); destruct H as [Hc _]); try (destruct H as [Hc _]);
      eauto 8.
  - pose proof (put_reset_cases f d) as H.
    destruct (put_reset f d) as [[s|e] d']; cbn; destruct H as [Hs H];
      (split; [exact Hs|]); destruct (reset_fault f); destruct H as [Hc _]; eauto 8.
Qed.

(** X1.  [put_reset]: all rows or none.  Whatever fails, either the call
    returns [True] and the committed table is empty, or it fails and the
    committed table is the one before the call. *)
Theorem put_reset_all_or_nothing (f : faults) (t : LinksTable) :
  let '(r, d') := put_reset f (at_rest t) in
  (r = Ret true /\ committed d' = []) \/
  (failed false r /\ committed d' = t).
Proof.
  pose proof (put_reset_cases f (at_rest t)) as H.
  destruct (put_reset f (at_rest t)) as [r d'].
  destruct H as [_ H]. cbn [committed at_rest] in H.
  destruct (reset_fault f); [right|left]; tauto.
Qed.

(** X2.  Every operation releases the connection it obtained, whatever fails
    on the way, also when the handler itself raises: the trace of a call
    that got a connection starts with the connect, ends with the close and
    has no other close; a call that got none makes no further call. *)
Theorem connection_always_released (f : faults) (op : operation) (t : LinksTable) :
  let d' := snd (call f op (at_rest t)) in
  session d' = None /\
  if f Connect then trace d' = [Connect]
  else hd Close (trace d') = Connect /\ last (trace d') Connect = Close /\
       List.length (filter is_close (trace d')) = 1%nat.
Proof.
  destruct op as [k|k|l k|]; unfold call; unfold_store; cbn;
    destruct (f Connect); cbn; auto.
  - destruct (f Begin); cbn; [destruct (f Rollback); cbn; auto|].
    destruct (f Cursor); cbn; [destruct (f Rollback); cbn; auto|].
    destruct (f (Execute KUpdate)); cbn; [destruct (f Rollback); cbn; auto|].
    destruct (f (Execute KSelectLong)); cbn; [destruct (f Rollback); cbn; auto|].
    destruct (f Fetchone); cbn; [destruct (f Rollback); cbn; auto|].
    destruct (filter _ _); cbn; destruct (f Commit); cbn;
      try (destruct (f Rollback); cbn); auto.
  - destruct (f Cursor); cbn; auto.
    destruct (f (Execute KSelectCount)); cbn; auto.
    destruct (f Fetchone); cbn; auto.
    destruct (filter _ _); cbn; auto.
  - destruct (f Begin); cbn; [destruct (f Rollback); cbn; auto|].
    destruct (f Cursor); cbn; [destruct (f Rollback); cbn; auto|].
    destruct (f (Execute KSelectLong)); cbn; [destruct (f Rollback); cbn; auto|].
    destruct (f Fetchone); cbn; [destruct (f Rollback); cbn; auto|].
    destruct (filter _ _); cbn.
    + destruct (f (Execute KInsert)); cbn; [destruct (f Rollback); cbn; auto|].
      destruct (f Commit); cbn; try (destruct (f Rollback); cbn); auto.
    + destruct (String.eqb _ _); cbn; destruct (f Commit); cbn;
        try (destruct (f Rollback); cbn); auto.
  - destruct (f Begin); cbn; [destruct (f Rollback); cbn; auto|].
    destruct (f Cursor); cbn; [destruct (f Rollback); cbn; auto|].
    destruct (f (Execute KDelete)); cbn; [destruct (f Rollback); cbn; auto|].
    destruct (f Commit); cbn; try (destruct (f Rollback); cbn); auto.
Qed.

Lemma failure_absorbed_when_rollback_works_witness :
  let f : faults := fun c => match c with Execute _ => true | _ => false end in
  (f Connect = false /\ f Rollback = false) /\
  exists a, fst (call f (Put_shorturl "http://example.com" "abc") (at_rest [])) = Ret a.
Proof.
  intros f. split; [split; reflexivity|].
  exact (failure_absorbed_when_rollback_works f
           (Put_shorturl "http://example.com" "abc") (at_rest [])
           eq_refl eq_refl).
Defined.

(** Counting: [n] lookups of a key. *)
Lemma lookups_committed (n : nat) (k : string) (d : database) :
  committed (lookups n k d) = Nat.iter n (map (bump k)) (committed d).
Proof.
  revert d. induction n as [|n IH]; intros d; cbn [lookups]; [reflexivity|].
  rewrite IH. pose proof (get_url_from no_faults k d) as H.
  destruct (get_url no_faults k d) as [r d']. cbn in H. cbn [snd].
  destruct H as [_ [-> _]]. now rewrite <- Nat.iter_succ_r.
Qed.

Lemma iter_bump_row (n : nat) (r : row) :
  Nat.iter n (map (bump (ShortUrl r))) [r] =
  [ {| ShortUrl := ShortUrl r; LongUrl := LongUrl r;
       LookedUpCount := LookedUpCount r + Z.of_nat n |} ].
Proof.
  induction n as [|n IH].
  - cbn. destruct r; cbn. now rewrite Z.add_0_r.
  - rewrite Nat.iter_succ, IH. cbn [map]. unfold bump; cbn [ShortUrl LongUrl LookedUpCount].
    rewrite String.eqb_refl. do 2 f_equal. lia.
Qed.

Lemma filter_iter_bump (n : nat) (k : string) (t : LinksTable) :
  filter (has_key k) (Nat.iter n (map (bump k)) t) =
  Nat.iter n (map (bump k)) (filter (has_key k) t).
Proof.
  induction n as [|n IH]; [reflexivity|].
  rewrite !Nat.iter_succ, filter_bump, IH. reflexivity.
Qed.

(** X4.  After [n] lookups of a key, on a database that does not fail,
    [get_stats] returns the counter the row had plus [n], and the long URL
    a further lookup returns is still the row's. *)
Theorem lookups_are_counted (n : nat) (r0 : row) (t : LinksTable) :
  unique_keys t -> In r0 t ->
  let d := lookups n (ShortUrl r0) (at_rest t) in
  fst (get_stats no_faults (ShortUrl r0) d) = Ret (LookedUpCount r0 + Z.of_nat n) /\
  fst (get_url no_faults (ShortUrl r0) d) = Ret (LongUrl r0).
Proof.
  intros Hu Hin d.
  assert (Hf : filter (has_key (ShortUrl r0)) (committed d) =
               [ {| ShortUrl := ShortUrl r0; LongUrl := LongUrl r0;
                    LookedUpCount := LookedUpCount r0 + Z.of_nat n |} ]).
  { unfold d. rewrite lookups_committed. cbn [committed at_rest].
    rewrite filter_iter_bump, (filter_unique r0 t Hu Hin). apply iter_bump_row. }
  split.
  - pose proof (get_stats_from no_faults (ShortUrl r0) d) as H.
    destruct (get_stats no_faults (ShortUrl r0) d) as [r d'].
    destruct H as (_ & _ & ->). cbn. unfold stored_count. now rewrite Hf.
  - pose proof (get_url_from no_faults (ShortUrl r0) d) as H.
    destruct (get_url no_faults (ShortUrl r0) d) as [r d'].
    cbn in H. destruct H as (_ & _ & ->). cbn. unfold stored_longurl. now rewrite Hf.
Qed.

Lemma lookups_are_counted_witness :
  let r0 := mkRow "abc" "http://example.com" 4 in
  let t := [mkRow "xyz" "http://other.com" 0; r0] in
  (unique_keys t /\ In r0 t) /\
  let d := lookups 3 (ShortUrl r0) (at_rest t) in
  fst (get_stats no_faults (ShortUrl r0) d) = Ret (LookedUpCount r0 + Z.of_nat 3) /\
  fst (get_url no_faults (ShortUrl r0) d) = Ret (LongUrl r0).
Proof.
  intros r0 t.
  assert (Hu : unique_keys t).
  { repeat constructor; cbn; [intros [H|[]]; discriminate|intros []]. }
  assert (Hin : In r0 t) by (right; now left).
  split; [tauto|].
  exact (lookups_are_counted 3 r0 t Hu Hin).
Defined.

(** X5.  Insert, then look up: a pair stored under a fresh key is what the
    next lookup returns, and that lookup is the first one counted. *)
Theorem insert_then_lookup (l k : string) (t : LinksTable) :
  ~ In k (map ShortUrl t) ->
  let d1 := snd (put_shorturl no_faults l k (at_rest t)) in
  let d2 := snd (get_url no_faults k d1) in
  fst (get_stats no_faults k d1) = Ret 0 /\
  fst (get_url no_faults k d1) = Ret l /\
  fst (get_stats no_faults k d2) = Ret 1.
Proof.
  intros Habs d1 d2.
  assert (Hc1 : committed d1 = t ++ [new_row k l]).
  { unfold d1. pose proof (put_shorturl_cases no_faults l k (at_rest t)) as H.
    destruct (put_shorturl no_faults l k (at_rest t)) as [r d].
    cbn [committed at_rest] in H. rewrite (filter_absent k t Habs) in H.
    cbn in H. cbn [snd]. tauto. }
  assert (Hf1 : filter (has_key k) (committed d1) = [new_row k l]).
  { rewrite Hc1, filter_app, (filter_absent k t Habs). cbn.
    unfold has_key, new_row; cbn. now rewrite String.eqb_refl. }
  assert (Hf2 : filter (has_key k) (committed d2) = [mkRow k l 1]).
  { unfold d2. pose proof (get_url_from no_faults k d1) as H.
    destruct (get_url no_faults k d1) as [r d]. cbn in H. cbn [snd].
    destruct H as (_ & -> & _). rewrite filter_bump, Hf1. cbn.
    unfold bump, new_row; cbn. now rewrite String.eqb_refl. }
  repeat split.
  - pose proof (get_stats_from no_faults k d1) as H.
    destruct (get_stats no_faults k d1) as [r d].
    destruct H as (_ & _ & ->). cbn. unfold stored_count. now rewrite Hf1.
  - pose proof (get_url_from no_faults k d1) as H.
    destruct (get_url no_faults k d1) as [r d]. cbn in H.
    destruct H as (_ & _ & ->). cbn. unfold stored_longurl. now rewrite Hf1.
  - pose proof (get_stats_from no_faults k d2) as H.
    destruct (get_stats no_faults k d2) as [r d].
    destruct H as (_ & _ & ->). cbn. unfold stored_count. now rewrite Hf2.
Qed.

Lemma insert_then_lookup_witness :
  let t := [mkRow "xyz" "http://other.com" 7] in
  ~ In "abc" (map ShortUrl t) /\
  let d1 := snd (put_shorturl no_faults "http://example.com" "abc" (at_rest t)) in
  let d2 := snd (get_url no_faults "abc" d1) in
  fst (get_stats no_faults "abc" d1) = Ret 0 /\
  fst (get_url no_faults "abc" d1) = Ret "http://example.com" /\
  fst (get_stats no_faults "abc" d2) = Ret 1.
Proof.
  intros t.
  assert (Habs : ~ In "abc" (map ShortUrl t)) by (intros [H|[]]; discriminate).
  split; [exact Habs|].
  exact (insert_then_lookup "http://example.com" "abc" t Habs).
Defined.

(** X6.  [put_shorturl] answers [True] only when the key maps to the given
    long URL afterwards, whatever failed on the way; and when it answers
    [False] without any failure, the key is taken by another long URL. *)
Theorem put_shorturl_true_means_mapped (f : faults) (l k : string) (t : LinksTable) :
  unique_keys t ->
  let '(r, d') := put_shorturl f l k (at_rest t) in
  (r = Ret true -> stored_longurl k (committed d') = l /\
                   exists c, In (mkRow k l c) (committed d')) /\
  (r = Ret false -> insert_fault f = false ->
   exists l' c, l' <> l /\ In (mkRow k l' c) t /\ committed d' = t).
Proof.
  intros Hu.
  pose proof (put_shorturl_cases f l k (at_rest t)) as H.
  destruct (put_shorturl f l k (at_rest t)) as [r d'].
  cbn [committed at_rest] in H. destruct H as [_ H].
  destruct (filter (has_key k) t) as [|r0 rs] eqn:Ef.
  - destruct (insert_fault f) eqn:Fi.
    + destruct H as [Hc [->|[e ->]]]; split; discriminate.
    + destruct H as [Hc ->]. split; [|discriminate]. intros _.
      rewrite Hc. unfold stored_longurl. rewrite filter_app, Ef. cbn.
      unfold has_key; cbn. rewrite String.eqb_refl. cbn. split; [reflexivity|].
      exists 0. apply in_or_app. right. now left.
  - destruct H as [Hc [_ H]].
    assert (Hin : In r0 t).
    { assert (Hin : In r0 (filter (has_key k) t)) by (rewrite Ef; now left).
      apply filter_In in Hin. tauto. }
    assert (Hk : ShortUrl r0 = k).
    { assert (Hin' : In r0 (filter (has_key k) t)) by (rewrite Ef; now left).
      apply filter_In in Hin'. destruct Hin' as [_ Hk]. now apply String.eqb_eq. }
    destruct (confirm_fault f) eqn:Fc.
    + assert (Fi : insert_fault f = true).
      { unfold insert_fault. unfold confirm_fault in Fc.
        apply orb_true_iff in Fc. destruct Fc as [Fc|Fc]; rewrite Fc;
          [reflexivity|apply orb_true_r]. }
      rewrite Fi. destruct H as [->|[e ->]]; split; discriminate.
    + rewrite H, Hc. split.
      * intros E. injection E as E. apply String.eqb_eq in E.
        unfold stored_longurl. rewrite Ef. split; [exact E|].
        exists (LookedUpCount r0). destruct r0; cbn in *; subst; exact Hin.
      * intros E _. injection E as E. apply String.eqb_neq in E.
        exists (LongUrl r0), (LookedUpCount r0). repeat split; auto.
        destruct r0; cbn in *; subst; exact Hin.
Qed.

Lemma put_shorturl_true_means_mapped_witness :
  let t := [mkRow "abc" "http://example.com" 2] in
  unique_keys t /\
  (let '(r, d') := put_shorturl no_faults "http://example.com" "abc" (at_rest t) in
   r = Ret true /\
   stored_longurl "abc" (committed d') = "http://example.com" /\
   exists c, In (mkRow "abc" "http://example.com" c) (committed d')) /\
  (let '(r, d') := put_shorturl no_faults "http://other.com" "abc" (at_rest t) in
   r = Ret false /\
   exists l' c, l' <> "http://other.com" /\ In (mkRow "abc" l' c) t /\ committed d' = t).
Proof.
  intros t.
  assert (Hu : unique_keys t) by (repeat constructor; intros []).
  split; [exact Hu|]. split.
  - pose proof (put_shorturl_true_means_mapped no_faults "http://example.com" "abc" t Hu)
      as H.
    destruct (put_shorturl no_faults "http://example.com" "abc" (at_rest t))
      as [r d'] eqn:E.
    vm_compute in E. injection E as <- <-.
    destruct H as [H _]. split; [reflexivity|exact (H eq_refl)].
  - pose proof (put_shorturl_true_means_mapped no_faults "http://other.com" "abc" t Hu)
      as H.
    destruct (put_shorturl no_faults "http://other.com" "abc" (at_rest t))
      as [r d'] eqn:E.
    vm_compute in E. injection E as <- <-.
    destruct H as [_ H]. split; [reflexivity|exact (H eq_refl eq_refl)].
Defined.

(** *** Runs *)

Lemma step_schema (f : faults) (op : operation) (d : database) :
  unique_keys (committed d) -> counters_nonneg (committed d) ->
  unique_keys (committed (snd (call f op d))) /\
  counters_nonneg (committed (snd (call f op d))).
Proof.
  intros Hu Hn. destruct (call_from f op d) as [_ H].
  destruct H as [->|[[k [_ ->]]|[[l [k [_ [Hf ->]]]]|[_ ->]]]].
  - auto.
  - split; [now apply unique_keys_bump|now apply counters_nonneg_bump].
  - split; [now apply unique_keys_insert|now apply counters_nonneg_insert].
  - split; [constructor|intros ? []].
Qed.

(** X7.  The schema is an invariant of every run: however many operations are
    called and whatever fails in each of them, the keys stay unique, the
    counters stay non-negative, and no connection is left open. *)
Theorem schema_kept_by_every_run (script : list (faults * operation)) (t : LinksTable) :
  unique_keys t -> counters_nonneg t ->
  let d := run script (at_rest t) in
  unique_keys (committed d) /\ counters_nonneg (committed d) /\ session d = None.
Proof.
  intros Hu Hn.
  assert (G : forall d0, unique_keys (committed d0) -> counters_nonneg (committed d0) ->
              session d0 = None ->
              unique_keys (committed (run script d0)) /\
              counters_nonneg (committed (run script d0)) /\
              session (run script d0) = None).
  { unfold run. induction script as [|[f op] script IH]; intros d0 H1 H2 H3; cbn [fold_left].
    - auto.
    - apply IH; unfold step; cbn [fst snd].
      + now apply step_schema.
      + now apply step_schema.
      + destruct (call_from f op d0) as [Hs _]. now apply Hs. }
  apply G; auto.
Qed.

Lemma schema_kept_by_every_run_witness :
  let t := [mkRow "abc" "http://example.com" 0] in
  let script := [(no_faults, Get_url "abc"); (connection_lost, Put_reset);
                 (no_faults, Put_shorturl "http://other.com" "xyz")] in
  (unique_keys t /\ counters_nonneg t) /\
  let d := run script (at_rest t) in
  unique_keys (committed d) /\ counters_nonneg (committed d) /\ session d = None.
Proof.
  intros t script.
  assert (Hu : unique_keys t) by (repeat constructor; intros []).
  assert (Hn : counters_nonneg t) by (intros r [<-|[]]; cbn; lia).
  split; [tauto|].
  exact (schema_kept_by_every_run script t Hu Hn).
Defined.

Lemma step_survives (f : faults) (op : operation) (d : database) (r0 : row) :
  is_reset op = false -> survives r0 (committed d) ->
  survives r0 (committed (snd (call f op d))).
Proof.
  intros Hr [r1 (Hin & Hk & Hl & Hc)]. destruct (call_from f op d) as [_ H].
  destruct H as [->|[[k [_ ->]]|[[l [k [_ [Hf ->]]]]|[-> _]]]].
  - now exists r1.
  - exists (bump k r1). rewrite ShortUrl_bump, LongUrl_bump.
    repeat split; auto; [now apply in_map|].
    unfold bump. destruct (String.eqb (ShortUrl r1) k); cbn; lia.
  - exists r1. repeat split; auto. apply in_or_app. now left.
  - discriminate.
Qed.

(** X8.  A key keeps its long URL for as long as the table is not reset: after
    any run without [put_reset], whatever fails in it, a row of the
    initial table is still found under its key with the same long URL and
    a counter that is not lower. *)
Theorem mapping_outlives_every_run_without_reset
    (script : list (faults * operation)) (t : LinksTable) (r0 : row) :
  unique_keys t -> In r0 t ->
  forallb (fun fo => negb (is_reset (snd fo))) script = true ->
  let t' := committed (run script (at_rest t)) in
  stored_longurl (ShortUrl r0) t' = LongUrl r0 /\
  LookedUpCount r0 <= stored_count (ShortUrl r0) t'.
Proof.
  intros Hu Hin Hs t'.
  assert (G : forall d0, unique_keys (committed d0) -> survives r0 (committed d0) ->
              unique_keys (committed (run script d0)) /\
              survives r0 (committed (run script d0))).
  { unfold run. induction script as [|[f op] script IH]; intros d0 H1 H2; cbn [fold_left].
    - auto.
    - cbn [forallb snd] in Hs. apply andb_true_iff in Hs. destruct Hs as [Hop Hs].
      apply negb_true_iff in Hop.
      assert (H1' : unique_keys (committed (step d0 (f, op)))).
      { unfold step; cbn [fst snd]. destruct (call_from f op d0) as [_ H].
        destruct H as [->|[[k [_ ->]]|[[l [k [_ [Hf ->]]]]|[-> _]]]]; auto.
        - now apply unique_keys_bump.
        - now apply unique_keys_insert.
        - discriminate. }
      apply IH; auto. unfold step; cbn [fst snd]. now apply step_survives. }
  destruct (G (at_rest t)) as [Hu' [r1 (Hin1 & Hk & Hl & Hc)]]; auto.
  { exists r0. repeat split; auto; lia. }
  fold t' in Hu', Hin1. rewrite <- Hk.
  rewrite (stored_longurl_present r1 t' Hu' Hin1), (stored_count_present r1 t' Hu' Hin1).
  split; [exact Hl|exact Hc].
Qed.

Lemma mapping_outlives_every_run_without_reset_witness :
  let r0 := mkRow "abc" "http://example.com" 0 in
  let t := [r0] in
  let script := [(no_faults, Get_url "abc"); (connection_lost, Get_url "abc");
                 (no_faults, Put_shorturl "http://other.com" "abc")] in
  (unique_keys t /\ In r0 t /\
   forallb (fun fo => negb (is_reset (snd fo))) script = true) /\
  let t' := committed (run script (at_rest t)) in
  stored_longurl (ShortUrl r0) t' = LongUrl r0 /\
  LookedUpCount r0 <= stored_count (ShortUrl r0) t'.
Proof.
  intros r0 t script.
  assert (Hu : unique_keys t) by (repeat constructor; intros []).
  assert (Hin : In r0 t) by (now left).
  assert (Hs : forallb (fun fo => negb (is_reset (snd fo))) script = true) by reflexivity.
  split; [tauto|].
  exact (mapping_outlives_every_run_without_reset script t r0 Hu Hin Hs).
Defined.

End ShortenFacts.

(** ** Properties of the PhotoApp client *)

Module PhotoAppFacts.
Import PhotoApp.
Local Open Scope list_scope.

(** *** Computations that stay on the client *)

Lemma local_ret {A} (a : A) : local (ret a).
Proof. intros w r w' H; inversion H; subst; repeat split; intros; discriminate. Qed.

Lemma local_raise {A} (e : exn) :
  retry_if_exception_type e = false -> local (raise (A := A) e).
Proof.
  intros He w r w' H; inversion H; subst; repeat split.
  intros e' E; inversion E; subst; exact He.
Qed.

Lemma local_bind {A B} (m : M A) (k : A -> M B) :
  local m -> (forall a, local (k a)) -> local (bind m k).
Proof.
  intros Hm Hk w r w' H. unfold bind in H.
  destruct (m w) as [[a|e] w1] eqn:E.
  - destruct (Hm _ _ _ E) as (A1 & A2 & A3 & _).
    destruct (Hk a _ _ _ H) as (B1 & B2 & B3 & B4).
    repeat split; try congruence. exact B4.
  - inversion H; subst. destruct (Hm _ _ _ E) as (A1 & A2 & A3 & A4).
    repeat split; auto. intros e' E'. inversion E'; subst. now apply A4.
Qed.

Lemma local_logging_error (msg : string) : local (logging_error msg).
Proof. intros w r w' H; inversion H; subst; repeat split; intros; discriminate. Qed.

Lemma local_build_url (path : string) : local (_build_url path).
Proof. intros w r w' H; inversion H; subst; repeat split; intros; discriminate. Qed.

Ltac local_step :=
  match goal with
  | |- local (bind _ _) => apply local_bind; [|intros ?]
  | |- local (ret _) => apply local_ret
  | |- local (raise _) => apply local_raise; reflexivity
  | |- local (if ?b then _ else _) => destruct b
  | |- local (match ?x with _ => _ end) => destruct x
  end.

Ltac local_auto := cbv zeta; repeat (local_step; cbv zeta); auto.

Lemma local_safe_json (r : response) : local (_safe_json r).
Proof. unfold _safe_json. local_auto. Qed.

Lemma local_raise_for_status (r : response) : local (raise_for_status r).
Proof. unfold raise_for_status. local_auto. Qed.

Lemma local_getitem (v : value) (key : string) : local (getitem v key).
Proof. unfold getitem. local_auto. Qed.

Lemma local_iterate (v : value) : local (iterate v).
Proof. unfold iterate. local_auto. Qed.

Lemma local_for_each {A B} (f : A -> M B) (l : list A) :
  (forall a, local (f a)) -> local (for_each f l).
Proof.
  intros Hf. induction l as [|x l IH]; cbn [for_each].
  - apply local_ret.
  - apply local_bind; [apply Hf|]. intros y.
    apply local_bind; [exact IH|]. intros ys. apply local_ret.
Qed.

Lemma local_columns (keys : list string) (row : value) : local (columns keys row).
Proof.
  unfold columns. apply local_bind.
  - apply local_for_each. intros k. apply local_getitem.
  - intros cells. apply local_ret.
Qed.

Lemma local_validate (local_filename : option string) :
  local (_validate_local_filename local_filename).
Proof.
  unfold _validate_local_filename.
  destruct local_filename as [name|]; [|local_auto].
  destruct (String.eqb (strip name) ""); [local_auto|].
  intros w r w' H. destruct (negb (isfile w name)); inversion H; subst;
    repeat split; intros e E; inversion E; reflexivity.
Qed.

Lemma local_read_file (filename : string) : local (read_file filename).
Proof.
  intros w r w' H. unfold read_file in H.
  destruct (files w filename) as [[c|]|]; inversion H; subst;
    repeat split; intros e E; inversion E; reflexivity.
Qed.

Lemma local_write_file (filename : value) (data : list byte) :
  local (write_file filename data).
Proof.
  intros w r w' H. unfold write_file in H.
  destruct filename as [|b|fd|name|l|l|kvs]; cbn zeta in H;
    try destruct (fd <? 0)%Z;
    try destruct (contains Ascii.zero name);
    try destruct (files w name) as [[c|]|];
    try destruct (write_failure w _);
    inversion H; subst;
    repeat split; intros e E; inversion E; reflexivity.
Qed.

Lemma local_b64decode (dec : string -> option (list byte)) (v : value) :
  local (base64_b64decode dec v).
Proof. unfold base64_b64decode. local_auto. Qed.

#[local] Hint Resolve local_safe_json local_raise_for_status local_getitem
  local_iterate local_columns local_validate local_read_file local_write_file
  local_b64decode local_build_url local_logging_error : core.

#[local] Hint Extern 1 (local (for_each _ _)) =>
  apply local_for_each; intros ? : core.

(** *** An attempt: at most one request *)

Section Attempt.
Variable net : nat -> request -> outcome exn response.
Variable dec : string -> option (list byte).

Lemma attempt_local_then {A B} (m : M A) (k : A -> M B) :
  local m -> (forall a, attempt net (k a)) -> attempt net (bind m k).
Proof.
  intros Hm Hk w r w' H. unfold bind in H.
  destruct (m w) as [[a|e] w1] eqn:E.
  - destruct (Hm _ _ _ E) as (A1 & A2 & A3 & _).
    destruct (Hk a _ _ _ H) as (B1 & B2 & B3 & B4).
    rewrite A3 in B3, B4. repeat split; try congruence; assumption.
  - inversion H; subst. destruct (Hm _ _ _ E) as (A1 & A2 & A3 & A4).
    repeat split; auto. intros e' E' R. inversion E'; subst.
    rewrite (A4 _ eq_refl) in R. discriminate.
Qed.

Lemma attempt_send_then {B} (rq : request) (k : response -> M B) :
  (forall resp, local (k resp)) -> attempt net (bind (requests_send net rq) k).
Proof.
  intros Hk w r w' H. unfold bind, requests_send in H.
  destruct (net (List.length (sent w)) rq) as [resp|e] eqn:E.
  - destruct (Hk resp _ _ _ H) as (B1 & B2 & B3 & B4). cbn in B1, B2, B3.
    repeat split; auto.
    + right. exists rq. exact B3.
    + intros e' E' R. rewrite (B4 _ E') in R. discriminate.
  - inversion H; subst. cbn. repeat split; auto.
    + right. now exists rq.
    + intros e' E' _. inversion E'; subst. now exists rq.
Qed.

Lemma attempt_handler {A} (body : M A) (name : string) :
  attempt net body -> attempt net (try_except body (log_and_reraise name)).
Proof.
  intros Hb w r w' H. unfold try_except in H.
  destruct (body w) as [[a|e] w1] eqn:E.
  - inversion H; subst. exact (Hb _ _ _ E).
  - destruct (Hb _ _ _ E) as (B1 & B2 & B3 & B4).
    inversion H; subst. cbn. repeat split; auto.
Qed.

Ltac attempt_auto :=
  apply attempt_handler;
  repeat (apply attempt_local_then; [solve [auto]|intros ?]);
  cbv zeta;
  unfold requests_get, requests_post, requests_delete;
  apply attempt_send_then; intros ?; local_auto.

Lemma attempt_undecorated (op : operation) : attempt net (undecorated net dec op).
Proof.
  destruct op; cbn [undecorated];
    unfold get_ping_fn, get_users_fn, get_images_fn, post_image_fn,
      get_image_fn, get_image_labels_fn, get_images_with_label_fn,
      delete_images_fn;
    attempt_auto.
Qed.

End Attempt.

(** *** The decorator *)

Lemma retry_loop_final {A} (stop : nat -> bool) (wait : nat -> Z)
    (fuel n : nat) (fn : M A) (w w1 : world) (e : exn) :
  fn (begin_attempt w) = (Raise e, w1) ->
  retry_if_exception_type e = false ->
  retry_loop stop wait fuel n fn w = (Raise e, w1).
Proof.
  intros H He. destruct fuel; cbn [retry_loop]; rewrite H, He; reflexivity.
Qed.

(** Fuel beyond the attempts the stop condition allows changes nothing. *)
Lemma retry_fuel {A} (mx : nat) (wait : nat -> Z) (fn : M A) (fuel fuel' : nat) :
  forall n w, (mx - n <= fuel)%nat -> (mx - n <= fuel')%nat ->
    retry_loop (stop_after_attempt mx) wait fuel n fn w =
    retry_loop (stop_after_attempt mx) wait fuel' n fn w.
Proof.
  revert fuel'. induction fuel as [|fuel IH]; intros fuel' n w H H'.
  - assert (Hs : stop_after_attempt mx n = true).
    { unfold stop_after_attempt. apply Nat.leb_le. lia. }
    destruct fuel'; cbn [retry_loop]; destruct (fn (begin_attempt w)) as [[a|e] w'];
      try reflexivity; destruct (negb (retry_if_exception_type e)); try reflexivity;
      rewrite Hs; reflexivity.
  - destruct fuel' as [|fuel'].
    + assert (Hs : stop_after_attempt mx n = true).
      { unfold stop_after_attempt. apply Nat.leb_le. lia. }
      cbn [retry_loop]. destruct (fn (begin_attempt w)) as [[a|e] w'];
        try reflexivity; destruct (negb (retry_if_exception_type e)); try reflexivity;
        rewrite Hs; reflexivity.
    + cbn [retry_loop]. destruct (fn (begin_attempt w)) as [[a|e] w']; try reflexivity.
      destruct (negb (retry_if_exception_type e)); try reflexivity.
      destruct (stop_after_attempt mx n); try reflexivity.
      apply IH; lia.
Qed.

(** The delays a call sleeps are the waits after attempts [n], [n+1], ...,
    as long as the function itself does not sleep. *)
Lemma retry_loop_sleeps {A} (mx : nat) (wait : nat -> Z) (fn : M A) :
  (forall w r w', fn w = (r, w') -> slept w' = slept w) ->
  forall fuel n w,
  exists k, slept (snd (retry_loop (stop_after_attempt mx) wait fuel n fn w))
            = slept w ++ map wait (seq n k) /\
            (k = 0%nat \/ (n + k <= mx)%nat).
Proof.
  intros Hfn. induction fuel as [|fuel IH]; intros n w; cbn [retry_loop];
    destruct (fn (begin_attempt w)) as [[a|e] w'] eqn:E;
    pose proof (Hfn _ _ _ E) as Hs; cbn [begin_attempt slept] in Hs.
  - exists 0%nat. cbn. rewrite app_nil_r. auto.
  - exists 0%nat. destruct (negb _), (stop_after_attempt mx n);
      cbn; rewrite app_nil_r; auto.
  - exists 0%nat. cbn. rewrite app_nil_r. auto.
  - destruct (negb _); [exists 0%nat; cbn; rewrite app_nil_r; auto|].
    destruct (stop_after_attempt mx n) eqn:St;
      [exists 0%nat; cbn; rewrite app_nil_r; auto|].
    apply Nat.leb_gt in St.
    destruct (IH (S n) (sleep (wait n) w')) as [k [Hk Hb]].
    exists (S k). split.
    + rewrite Hk. cbn [sleep slept seq map]. rewrite Hs, <- app_assoc. reflexivity.
    + right. destruct Hb as [->|Hb]; lia.
Qed.

Lemma wait_exponential_bounds (n : nat) :
  2 <= wait_exponential 1 2 30 n <= 30.
Proof. unfold wait_exponential. lia. Qed.

Lemma wait_exponential_mono (n : nat) :
  wait_exponential 1 2 30 n <= wait_exponential 1 2 30 (S n).
Proof.
  unfold wait_exponential.
  assert (H : 2 ^ (Z.of_nat n - 1) <= 2 ^ (Z.of_nat (S n) - 1)).
  { apply Z.pow_le_mono_r; lia. }
  lia.
Qed.

Lemma waits_sorted (k n : nat) :
  Sorted Z.le (map (wait_exponential 1 2 30) (seq n k)).
Proof.
  revert n. induction k as [|k IH]; intros n; cbn [seq map]; constructor.
  - apply IH.
  - destruct k; cbn [seq map]; constructor. apply wait_exponential_mono.
Qed.

Lemma waits_bounded (k n : nat) :
  Forall (fun d => 2 <= d <= 30) (map (wait_exponential 1 2 30) (seq n k)).
Proof.
  apply Forall_forall. intros d Hd. apply in_map_iff in Hd.
  destruct Hd as [m [<- _]]. apply wait_exponential_bounds.
Qed.


(** *** Blank names *)

Lemma lstrip_blank (s : string) : blank s = true -> lstrip_by isspace s = "".
Proof.
  unfold blank. induction s as [|c s IH]; cbn; auto.
  destruct (isspace c); cbn; [exact IH|discriminate].
Qed.

Lemma rstrip_nonblank (s : string) : rstrip_by isspace s = "" -> blank s = true.
Proof.
  unfold blank. induction s as [|c s IH]; cbn; auto.
  destruct (rstrip_by isspace s); [|discriminate].
  destruct (isspace c); [intros _; now apply IH|discriminate].
Qed.

Lemma lstrip_keeps_nonblank (s : string) :
  blank (lstrip_by isspace s) = true -> blank s = true.
Proof.
  unfold blank. induction s as [|c s IH]; cbn; auto.
  destruct (isspace c) eqn:E; cbn; [exact IH|now rewrite E].
Qed.

(** [local_filename.strip() == ""] holds exactly for the blank names. *)
Lemma strip_empty_iff_blank (s : string) : strip s = "" <-> blank s = true.
Proof.
  unfold strip. split.
  - intros H. apply lstrip_keeps_nonblank. now apply rstrip_nonblank.
  - intros H. now rewrite lstrip_blank.
Qed.

(** *** The claims about the client *)

(** C5 (the code departs from the claim).  On status 400 with the body
    {"message": "no such assetid"}, [get_image] makes one request and one
    attempt and does not sleep, and it raises a [ValueError]; but the
    message is the server's message behind the prefix "status code 400: ",
    not the server's message itself.  [get_image_labels] on the same
    response raises the [ValueError] with the message as sent. *)
Theorem get_image_no_such_assetid (dec : string -> option (list byte))
    (assetid : value) (local_filename : option string) (w : world) :
  let '(r, w') := get_image (always no_such_assetid) dec assetid local_filename w in
  r = Raise (ValueError (VStr "status code 400: no such assetid")) /\
  r <> Raise (ValueError (VStr "no such assetid")) /\
  (exists rq, sent w' = sent w ++ [rq]) /\
  attempts w' = S (attempts w) /\ slept w' = slept w /\
  fst (get_image_labels (always no_such_assetid) assetid w)
    = Raise (ValueError (VStr "no such assetid")).
Proof.
  cbn. repeat split; try reflexivity; try discriminate. eexists; reflexivity.
Qed.

(** C6, as the code has it.  When [local_filename] is [None], is blank, or
    does not name an existing regular file, [post_image] raises a
    [ValueError] in its first attempt: nothing is sent, nothing is slept
    and no further attempt is made.  (The size of the file is not looked
    at.) *)
Theorem post_image_validates_before_sending
    (net : nat -> request -> outcome exn response)
    (userid : value) (local_filename : option string) (w : world) :
  rejected w local_filename ->
  fails_fast w (post_image net userid local_filename w).
Proof.
  unfold rejected, fails_fast, post_image, retry.
  intros H. cbn [retry_loop].
  unfold post_image_fn, try_except, bind, _build_url, _validate_local_filename.
  destruct local_filename as [name|].
  - destruct H as [H|H].
    + apply strip_empty_iff_blank in H. rewrite H. cbn. repeat split; eauto.
    + destruct (String.eqb (strip name) ""); cbn.
      * repeat split; eauto.
      * unfold isfile in *. cbn [begin_attempt files].
        destruct (files w name) as [[c|]|]; try discriminate; cbn;
          repeat split; eauto.
  - cbn. repeat split; eauto.
Qed.

Lemma post_image_validates_before_sending_witness :
  rejected (fresh_world "https://photoapp" one_empty_file) (Some "missing.jpg") /\
  fails_fast (fresh_world "https://photoapp" one_empty_file)
    (post_image (always uploaded) (VInt 80001) (Some "missing.jpg")
       (fresh_world "https://photoapp" one_empty_file)).
Proof.
  assert (H : rejected (fresh_world "https://photoapp" one_empty_file)
                (Some "missing.jpg")) by (right; reflexivity).
  split; [exact H|].
  exact (post_image_validates_before_sending (always uploaded) (VInt 80001)
           (Some "missing.jpg") (fresh_world "https://photoapp" one_empty_file) H).
Defined.

(** C6 as stated fails on a file of zero bytes: the file passes the
    validation, its (empty) content is sent, and the server's answer is
    returned. *)
Lemma post_image_sends_an_empty_file :
  let w := fresh_world "https://photoapp" one_empty_file in
  let res := post_image (always uploaded) (VInt 80001) (Some "empty.jpg") w in
  files w "empty.jpg" = Some (File []) /\
  fst res = Ret (VInt 1001) /\
  sent (snd res) =
    [ {| method := POST; target := "https://photoapp/image/80001"; params := [];
         json_payload := Some (VDict [("local_filename", VStr "empty.jpg");
                                      ("data", VStr "")]) |} ] /\
  ~ fails_fast w res.
Proof.
  cbn. repeat split.
  intros [[msg H] _]. discriminate.
Qed.

(** C7.  When an attempt of an API operation ends with an exception the
    decorator does not retry (any exception but [ConnectionError] and
    [Timeout]), and in particular whenever the transport delivered a
    response, whatever its status, the call ends with that exception: the
    attempt was the only one, it sent at most one request, and nothing was
    slept.  The same holds at every later attempt of the loop. *)
Theorem non_retryable_error_ends_the_call
    (net : nat -> request -> outcome exn response)
    (dec : string -> option (list byte))
    (op : operation) (w w1 : world) (e : exn) :
  undecorated net dec op (begin_attempt w) = (Raise e, w1) ->
  retry_if_exception_type e = false \/
    (forall rq, exists resp, net (List.length (sent w)) rq = Ret resp) ->
  call net dec op w = (Raise e, w1) /\
  attempts w1 = S (attempts w) /\ slept w1 = slept w /\
  (sent w1 = sent w \/ exists rq, sent w1 = sent w ++ [rq]) /\
  forall fuel n,
    retry_loop (stop_after_attempt 3) (wait_exponential 1 2 30) fuel n
      (undecorated net dec op) w = (Raise e, w1).
Proof.
  intros H Hcls.
  destruct (attempt_undecorated net dec op _ _ _ H) as (A1 & A2 & A3 & A4).
  cbn [begin_attempt attempts slept sent] in A1, A2, A3, A4.
  assert (He : retry_if_exception_type e = false).
  { destruct Hcls as [He|Hresp]; [exact He|].
    destruct (retry_if_exception_type e) eqn:R; [|reflexivity].
    destruct (A4 e eq_refl R) as [rq Hrq].
    destruct (Hresp rq) as [resp Hr]. congruence. }
  repeat split; auto.
  - unfold call, retry. now apply retry_loop_final.
  - intros fuel n. now apply retry_loop_final.
Qed.

Lemma non_retryable_error_ends_the_call_witness :
  let w := fresh_world "https://photoapp" one_empty_file in
  let w1 := snd (undecorated (always server_error) no_decoder Get_ping (begin_attempt w)) in
  let e := HTTPError (VStr "status code 500: database unreachable") in
  (undecorated (always server_error) no_decoder Get_ping (begin_attempt w) = (Raise e, w1) /\
   (retry_if_exception_type e = false \/
    forall rq, exists resp, always server_error (List.length (sent w)) rq = Ret resp)) /\
  call (always server_error) no_decoder Get_ping w = (Raise e, w1) /\
  attempts w1 = S (attempts w) /\ slept w1 = slept w /\
  (sent w1 = sent w \/ exists rq, sent w1 = sent w ++ [rq]) /\
  forall fuel n,
    retry_loop (stop_after_attempt 3) (wait_exponential 1 2 30) fuel n
      (undecorated (always server_error) no_decoder Get_ping) w = (Raise e, w1).
Proof.
  intros w w1 e.
  assert (H : undecorated (always server_error) no_decoder Get_ping (begin_attempt w)
              = (Raise e, w1)) by reflexivity.
  assert (Hc : retry_if_exception_type e = false \/
               forall rq, exists resp,
                 always server_error (List.length (sent w)) rq = Ret resp)
    by (left; reflexivity).
  split; [split; [exact H|exact Hc]|].
  exact (non_retryable_error_ends_the_call (always server_error) no_decoder
           Get_ping w w1 e H Hc).
Defined.

(** C8.  Under the policy of the decorators (multiplier 1, floor 2,
    ceiling 30) the delay after attempt n+1 is at least the delay after
    attempt n and no delay exceeds 30; and the delays one call of an API
    operation sleeps are the first delays of that sequence, in order: a
    non-decreasing list of at most two values between 2 and 30. *)
Theorem backoff_nondecreasing_and_capped
    (net : nat -> request -> outcome exn response)
    (dec : string -> option (list byte)) (op : operation) (w : world) :
  (forall n, wait_exponential 1 2 30 n <= wait_exponential 1 2 30 (S n) /\
             wait_exponential 1 2 30 n <= 30) /\
  exists delays,
    slept (snd (call net dec op w)) = slept w ++ delays /\
    delays = map (wait_exponential 1 2 30) (seq 1 (List.length delays)) /\
    (List.length delays <= 2)%nat /\
    Sorted Z.le delays /\ Forall (fun d => 2 <= d <= 30) delays.
Proof.
  split.
  - intros n. split; [apply wait_exponential_mono|apply wait_exponential_bounds].
  - destruct (retry_loop_sleeps 3 (wait_exponential 1 2 30) (undecorated net dec op))
      with (fuel := 3%nat) (n := 1%nat) (w := w) as [k [Hk Hb]].
    { intros w0 r w' H. now destruct (attempt_undecorated net dec op _ _ _ H) as (_ & A2 & _). }
    exists (map (wait_exponential 1 2 30) (seq 1 k)).
    rewrite length_map, length_seq.
    repeat split.
    + exact Hk.
    + lia.
    + apply waits_sorted.
    + apply waits_bounded.
Qed.


(** *** Further properties of the client *)

Local Open Scope string_scope.

Lemma rstrip_slash_snoc (s : string) : rstrip_slash (s ++ "/") = rstrip_slash s.
Proof.
  unfold rstrip_slash. induction s as [|c s IH]; [reflexivity|].
  cbn [append rstrip_by]. now rewrite IH.
Qed.

Lemma append_slashes_snoc (s : string) (n : nat) :
  s ++ slashes (S n) = (s ++ slashes n) ++ "/".
Proof.
  revert s. induction n as [|n IH]; intros s.
  - cbn. induction s as [|c s IHs]; cbn; [reflexivity|now rewrite IHs].
  - cbn [slashes]. cbn [slashes] in IH.
    induction s as [|c s IHs].
    + cbn. f_equal. exact (IH "").
    + cbn. now rewrite IHs.
Qed.

Lemma rstrip_slash_fixed (s : string) :
  (forall t, s <> t ++ "/") -> rstrip_slash s = s.
Proof.
  unfold rstrip_slash. induction s as [|c s IH]; intros H; [reflexivity|].
  cbn [rstrip_by]. destruct s as [|c' s'].
  - cbn [rstrip_by]. destruct (Ascii.eqb "/"%char c) eqn:E; [|reflexivity].
    apply Ascii.eqb_eq in E. exfalso. apply (H ""). now subst.
  - rewrite IH; [reflexivity|].
    intros t E. apply (H (String c t)). cbn. now rewrite E.
Qed.

(** X9.  [_build_url] ignores the slashes at the end of the configured URL:
    with a base that does not end in a slash, followed by any number of
    slashes, the URL is the base followed by the path. *)
Theorem build_url_ignores_trailing_slashes
    (base path : string) (n : nat) (w : world) :
  (forall t, base <> t ++ "/") ->
  WEB_SERVICE_URL w = base ++ slashes n ->
  _build_url path w = (Ret (base ++ path), w).
Proof.
  intros Hb Hw. unfold _build_url. rewrite Hw. do 2 f_equal.
  clear Hw. induction n as [|n IH].
  - cbn [slashes]. replace (base ++ "") with base.
    + now rewrite rstrip_slash_fixed.
    + clear. induction base as [|c s IH]; cbn; [reflexivity|now rewrite <- IH].
  - now rewrite append_slashes_snoc, rstrip_slash_snoc, IH.
Qed.

Lemma length_snoc_slash (t : string) :
  String.length (t ++ "/") = S (String.length t).
Proof. induction t as [|c t IH]; cbn; [reflexivity|now rewrite IH]. Qed.

Lemma get_snoc_slash (t : string) :
  String.get (String.length t) (t ++ "/") = Some "/"%char.
Proof. induction t as [|c t IH]; cbn; [reflexivity|exact IH]. Qed.

Lemma build_url_ignores_trailing_slashes_witness :
  (forall t, "https://photoapp" <> t ++ "/") /\
  WEB_SERVICE_URL (fresh_world "https://photoapp//" one_empty_file)
    = "https://photoapp" ++ slashes 2 /\
  _build_url "/ping" (fresh_world "https://photoapp//" one_empty_file)
    = (Ret ("https://photoapp" ++ "/ping"),
       fresh_world "https://photoapp//" one_empty_file).
Proof.
  assert (Hb : forall t, "https://photoapp" <> t ++ "/").
  { intros t E.
    assert (Hl : String.length t = 15%nat).
    { apply (f_equal String.length) in E. rewrite length_snoc_slash in E.
      cbn in E. now injection E. }
    pose proof (get_snoc_slash t) as G. rewrite <- E, Hl in G. discriminate. }
  assert (Hw : WEB_SERVICE_URL (fresh_world "https://photoapp//" one_empty_file)
               = "https://photoapp" ++ slashes 2) by reflexivity.
  split; [exact Hb|]. split; [exact Hw|].
  exact (build_url_ignores_trailing_slashes "https://photoapp" "/ping" 2
           (fresh_world "https://photoapp//" one_empty_file) Hb Hw).
Defined.

Lemma retry_returns {A} (fn : M A) (w w' : world) (a : A) :
  fn (begin_attempt w) = (Ret a, w') -> retry fn w = (Ret a, w').
Proof. intros H. unfold retry. cbn [retry_loop]. now rewrite H. Qed.

Ltac run_attempt :=
  unfold get_ping_fn, get_users_fn, get_images_fn, post_image_fn, get_image_fn,
    get_image_labels_fn, get_images_with_label_fn, delete_images_fn,
    try_except, bind, _build_url, requests_get, requests_post, requests_delete,
    requests_send;
  cbn [begin_attempt sent files write_failure WEB_SERVICE_URL slept attempts
       logged fst snd].

(** X10.  [get_image] saves under the caller's name.  On status 200 with a body
    that holds a name and base64 data that decodes, the bytes go to
    [local_filename] when the caller gave one, and to the name in the
    body otherwise.  For a name that is a string without a NUL character
    and does not name a directory: when the operating system lets the
    write through, the
    path reads as the decoded bytes afterwards and the name used is
    returned, after one request and with nothing logged; when it
    refuses, the call raises that [OSError], again after one attempt. *)
Theorem get_image_saves_under_the_callers_name
    (net : nat -> request -> outcome exn response)
    (dec : string -> option (list byte))
    (assetid : value) (local_filename : option string) (w : world)
    (resp : response) (kvs : list (string * value)) (orig : value)
    (b64 name : string) (bytes : list byte) :
  (forall rq, net (List.length (sent w)) rq = Ret resp) ->
  status_code resp = 200 ->
  json_body resp = Some (VDict kvs) ->
  lookup "local_filename" kvs = Some orig ->
  lookup "data" kvs = Some (VStr b64) ->
  dec b64 = Some bytes ->
  match local_filename with Some n => VStr n | None => orig end = VStr name ->
  ~ In Ascii.zero (list_ascii_of_string name) ->
  files w name <> Some Directory ->
  let '(r, w') := get_image net dec assetid local_filename w in
  match write_failure w (VStr name) with
  | None =>
      r = Ret (VStr name) /\ files w' name = Some (File bytes) /\
      logged w' = logged w
  | Some msg => r = Raise (OSError msg)
  end /\
  attempts w' = S (attempts w) /\ slept w' = slept w /\
  List.length (sent w') = S (List.length (sent w)).
Proof.
  intros Hnet Hs Hj Hn Hd Hdec Hname Hnul' Hdir.
  assert (Hnul : contains Ascii.zero name = false).
  { unfold contains. destruct (existsb _ _) eqn:E; [|reflexivity].
    apply existsb_exists in E. destruct E as [c [Hc E]].
    apply Ascii.eqb_eq in E. subst c. contradiction. }
  unfold get_image, retry. cbn [retry_loop]. run_attempt.
  rewrite Hnet, Hs. cbn [Z.eqb Pos.eqb].
  unfold _safe_json, getitem, base64_b64decode, ret, raise.
  rewrite Hj, Hn, Hd, Hdec, Hname. unfold write_file. rewrite Hnul.
  cbn [files write_failure].
  destruct (files w name) as [[c|]|]; try congruence;
    destruct (write_failure w (VStr name)) as [msg|]; cbn;
    rewrite ?String.eqb_refl, length_app; cbn; repeat split; lia.
Qed.

Lemma get_image_saves_under_the_callers_name_witness :
  let resp := {| status_code := 200; reason := "OK"; url := "";
                 json_body := Some (VDict [("local_filename", VStr "server.jpg");
                                           ("data", VStr "TWFu")]) |} in
  let dec := fun s : string => if String.eqb s "TWFu" then Some [x4d; x61; x6e] else None in
  let w := fresh_world "https://photoapp" one_empty_file in
  ((forall rq, always resp (List.length (sent w)) rq = Ret resp) /\
   status_code resp = 200 /\
   json_body resp = Some (VDict [("local_filename", VStr "server.jpg"); ("data", VStr "TWFu")]) /\
   lookup "local_filename" [("local_filename", VStr "server.jpg"); ("data", VStr "TWFu")]
     = Some (VStr "server.jpg") /\
   lookup "data" [("local_filename", VStr "server.jpg"); ("data", VStr "TWFu")]
     = Some (VStr "TWFu") /\
   dec "TWFu" = Some [x4d; x61; x6e] /\
   VStr "empty.jpg" = VStr "empty.jpg" /\
   ~ In Ascii.zero (list_ascii_of_string "empty.jpg") /\
   files w "empty.jpg" <> Some Directory) /\
  let '(r, w') := get_image (always resp) dec (VInt 1014) (Some "empty.jpg") w in
  match write_failure w (VStr "empty.jpg") with
  | None =>
      r = Ret (VStr "empty.jpg") /\ files w' "empty.jpg" = Some (File [x4d; x61; x6e]) /\
      logged w' = logged w
  | Some msg => r = Raise (OSError msg)
  end /\
  attempts w' = S (attempts w) /\ slept w' = slept w /\
  List.length (sent w') = S (List.length (sent w)).
Proof.
  intros resp dec w.
  assert (H1 : forall rq, always resp (List.length (sent w)) rq = Ret resp) by reflexivity.
  assert (H2 : files w "empty.jpg" <> Some Directory) by discriminate.
  assert (H3 : ~ In Ascii.zero (list_ascii_of_string "empty.jpg"))
    by (cbn; intuition discriminate).
  split; [repeat split; assumption|].
  exact (get_image_saves_under_the_callers_name (always resp) dec (VInt 1014)
           (Some "empty.jpg") w resp _ (VStr "server.jpg") "TWFu" "empty.jpg"
           [x4d; x61; x6e] H1 eq_refl eq_refl eq_refl eq_refl eq_refl eq_refl
           H3 H2).
Defined.

(** X11.  A status the client does not expect.  The three operations that test
    the status first give up on a status other than 200, 400 and 500
    without reading the body and without a retry: an error status (400 to
    599) raises the [HTTPError] of [raise_for_status], whose message
    names the status, the reason and the URL of the response; every
    other status makes the call return [None], with no file written and
    nothing logged. *)
Theorem unexpected_status_falls_through
    (net : nat -> request -> outcome exn response)
    (dec : string -> option (list byte))
    (op : operation) (w : world) (resp : response) :
  tests_status_first op = true ->
  (forall rq, net (List.length (sent w)) rq = Ret resp) ->
  status_code resp <> 200 -> status_code resp <> 400 -> status_code resp <> 500 ->
  let '(r, w') := call net dec op w in
  (if (400 <=? status_code resp)%Z && (status_code resp <? 600)%Z
   then r = Raise (HTTPError (VStr
          (str_int (status_code resp)
           ++ (if (status_code resp <? 500)%Z then " Client Error: "
               else " Server Error: ")
           ++ reason resp ++ " for url: " ++ url resp)))
   else r = Ret VNone /\ files w' = files w /\ logged w' = logged w) /\
  attempts w' = S (attempts w) /\ slept w' = slept w /\
  List.length (sent w') = S (List.length (sent w)).
Proof.
  intros Hop Hnet H2 H4 H5.
  apply Z.eqb_neq in H2, H4, H5.
  destruct op; try discriminate; unfold call, retry; cbn [retry_loop undecorated];
    run_attempt; rewrite Hnet, H2, ?H4, ?H5; cbn [orb];
    unfold raise_for_status;
    destruct ((400 <=? status_code resp)%Z && (status_code resp <? 500)%Z) eqn:C1;
    destruct ((500 <=? status_code resp)%Z && (status_code resp <? 600)%Z) eqn:C2;
    destruct ((400 <=? status_code resp)%Z && (status_code resp <? 600)%Z) eqn:C3;
    destruct (status_code resp <? 500)%Z eqn:C4;
    cbn; rewrite ?length_app; cbn; repeat split; try lia; exfalso; lia.
Qed.

Lemma unexpected_status_falls_through_witness :
  let resp := {| status_code := 204; reason := "No Content"; url := ""; json_body := None |} in
  let w := fresh_world "https://photoapp" one_empty_file in
  (tests_status_first (Get_image (VInt 1014) None) = true /\
   (forall rq, always resp (List.length (sent w)) rq = Ret resp) /\
   status_code resp <> 200 /\ status_code resp <> 400 /\ status_code resp <> 500) /\
  let '(r, w') := call (always resp) no_decoder (Get_image (VInt 1014) None) w in
  (if (400 <=? status_code resp)%Z && (status_code resp <? 600)%Z
   then r = Raise (HTTPError (VStr
          (str_int (status_code resp)
           ++ (if (status_code resp <? 500)%Z then " Client Error: "
               else " Server Error: ")
           ++ reason resp ++ " for url: " ++ url resp)))
   else r = Ret VNone /\ files w' = files w /\ logged w' = logged w) /\
  attempts w' = S (attempts w) /\ slept w' = slept w /\
  List.length (sent w') = S (List.length (sent w)).
Proof.
  intros resp w.
  assert (H1 : forall rq, always resp (List.length (sent w)) rq = Ret resp) by reflexivity.
  assert (H2 : status_code resp <> 200) by discriminate.
  assert (H4 : status_code resp <> 400) by discriminate.
  assert (H5 : status_code resp <> 500) by discriminate.
  split; [repeat split; assumption|].
  exact (unexpected_status_falls_through (always resp) no_decoder
           (Get_image (VInt 1014) None) w resp eq_refl H1 H2 H4 H5).
Defined.



(** Rows and tuples. *)
Lemma getitem_cell (row : value) (k : string) (w : world) :
  getitem row k w =
  match cell k row with
  | Some v => (Ret v, w)
  | None => (fst (getitem row k w), w)
  end.
Proof.
  unfold getitem, cell. destruct row; try reflexivity.
  destruct (lookup k kvs); reflexivity.
Qed.

Lemma getitem_no_cell (row : value) (k : string) (w : world) :
  cell k row = None ->
  exists e, getitem row k w = (Raise e, w) /\ retry_if_exception_type e = false.
Proof.
  unfold getitem, cell. destruct row; intros H; try (eexists; split; reflexivity).
  rewrite H. eexists; split; reflexivity.
Qed.

Lemma cells_complete (keys : list string) (row : value) (w : world) :
  complete keys row = true ->
  for_each (getitem row) keys w =
  (Ret (map (fun k => match cell k row with Some v => v | None => VNone end) keys), w).
Proof.
  unfold complete. induction keys as [|k keys IH]; cbn [for_each forallb map]; intros H.
  - reflexivity.
  - apply andb_true_iff in H. destruct H as [Hk H].
    unfold bind. rewrite getitem_cell.
    destruct (cell k row); [|discriminate].
    rewrite (IH H). reflexivity.
Qed.

Lemma rows_complete (keys : list string) (rows : list value) (w : world) :
  forallb (complete keys) rows = true ->
  for_each (columns keys) rows w = (Ret (map (project keys) rows), w).
Proof.
  induction rows as [|row rows IH]; cbn [for_each forallb map]; intros H.
  - reflexivity.
  - apply andb_true_iff in H. destruct H as [Hr H].
    unfold bind. unfold columns at 1. unfold bind.
    rewrite (cells_complete keys row w Hr). cbn. rewrite (IH H). reflexivity.
Qed.

Lemma cells_incomplete (keys : list string) (row : value) (w : world) :
  complete keys row = false ->
  exists e, for_each (getitem row) keys w = (Raise e, w) /\
            retry_if_exception_type e = false.
Proof.
  unfold complete. induction keys as [|k keys IH]; cbn [for_each forallb]; intros H.
  - discriminate.
  - unfold bind. destruct (cell k row) as [v|] eqn:Hk.
    + cbn [andb] in H. destruct (IH H) as [e [He Hr]].
      rewrite getitem_cell, Hk, He. eauto.
    + destruct (getitem_no_cell row k w Hk) as [e [He Hr]]. rewrite He. eauto.
Qed.

Lemma rows_incomplete (keys : list string) (rows : list value) (w : world) :
  forallb (complete keys) rows = false ->
  exists e, for_each (columns keys) rows w = (Raise e, w) /\
            retry_if_exception_type e = false.
Proof.
  induction rows as [|row rows IH]; cbn [for_each forallb]; intros H.
  - discriminate.
  - unfold bind. unfold columns at 1. unfold bind.
    destruct (complete keys row) eqn:Hr.
    + rewrite (cells_complete keys row w Hr). cbn.
      destruct (IH H) as [e [He Hre]]. rewrite He. eauto.
    + destruct (cells_incomplete keys row w Hr) as [e [He Hre]]. rewrite He. eauto.
Qed.

(** X13.  The list operations ([get_users], [get_images], [get_image_labels],
    [get_images_with_label]) on status 200: when every row of "data" has
    the columns of the operation, the call returns one tuple per row, in
    the order of the rows and with the columns in the order of the
    operation; when some row lacks a column, the call raises and returns
    no part of the list. *)
Theorem list_operations_return_a_tuple_per_row
    (net : nat -> request -> outcome exn response)
    (dec : string -> option (list byte))
    (op : operation) (keys : list string) (w : world) (resp : response)
    (kvs : list (string * value)) (rows : list value) :
  row_keys op = Some keys ->
  (forall rq, net (List.length (sent w)) rq = Ret resp) ->
  status_code resp = 200 ->
  json_body resp = Some (VDict kvs) ->
  lookup "data" kvs = Some (VList rows) ->
  let r := fst (call net dec op w) in
  if forallb (complete keys) rows
  then r = Ret (VList (map (project keys) rows))
  else exists e, r = Raise e /\ retry_if_exception_type e = false.
Proof.
  intros Hk Hnet Hs Hj Hd.
  destruct (forallb (complete keys) rows) eqn:Hc;
    destruct op; try discriminate; injection Hk as <-;
    unfold call, retry; cbn [retry_loop undecorated]; run_attempt;
    rewrite Hnet, Hs; cbn [Z.eqb Pos.eqb];
    unfold _safe_json, getitem, iterate, ret; rewrite Hj, Hd.
  1-4: rewrite (rows_complete _ _ _ Hc); reflexivity.
  all: match goal with
       | Hc' : forallb (complete ?ks) ?rs = false |- context [for_each _ ?rs ?w0] =>
           destruct (rows_incomplete ks rs w0 Hc') as [e [He Hr]]
       end;
    rewrite He; cbn; rewrite Hr; cbn; eauto.
Qed.

Lemma list_operations_return_a_tuple_per_row_witness :
  let rows := [VDict [("confidence", VInt 99); ("label", VStr "Animal")];
               VDict [("label", VStr "Rodent"); ("confidence", VInt 90)]] in
  let resp := {| status_code := 200; reason := "OK"; url := "";
                 json_body := Some (VDict [("data", VList rows)]) |} in
  let w := fresh_world "https://photoapp" one_empty_file in
  (row_keys (Get_image_labels (VInt 1014)) = Some ["label"; "confidence"] /\
   (forall rq, always resp (List.length (sent w)) rq = Ret resp) /\
   status_code resp = 200 /\
   json_body resp = Some (VDict [("data", VList rows)]) /\
   lookup "data" [("data", VList rows)] = Some (VList rows)) /\
  let r := fst (call (always resp) no_decoder (Get_image_labels (VInt 1014)) w) in
  if forallb (complete ["label"; "confidence"]) rows
  then r = Ret (VList (map (project ["label"; "confidence"]) rows))
  else exists e, r = Raise e /\ retry_if_exception_type e = false.
Proof.
  intros rows resp w.
  assert (H1 : forall rq, always resp (List.length (sent w)) rq = Ret resp) by reflexivity.
  split; [repeat split; assumption|].
  exact (list_operations_return_a_tuple_per_row (always resp) no_decoder
           (Get_image_labels (VInt 1014)) _ w resp _ rows
           eq_refl H1 eq_refl eq_refl eq_refl).
Defined.



(** *** What the operations leave alone *)

Section Keeps.
Context {X : Type}.
Variable proj : world -> X.
Hypothesis proj_of_state :
  forall w w', env w = env w' -> logged w = logged w' -> proj w = proj w'.

Lemma keeps_ret {A} (a : A) : keeps proj (ret a).
Proof. intros w. reflexivity. Qed.

Lemma keeps_raise {A} (e : exn) : keeps proj (raise (A := A) e).
Proof. intros w. reflexivity. Qed.

Lemma keeps_bind {A B} (m : M A) (k : A -> M B) :
  keeps proj m -> (forall a, keeps proj (k a)) -> keeps proj (bind m k).
Proof.
  intros Hm Hk w. unfold bind. specialize (Hm w).
  destruct (m w) as [[a|e] w1]; cbn [snd] in *; [|exact Hm].
  now rewrite Hk.
Qed.

Lemma keeps_try_except {A} (body : M A) (h : exn -> M A) :
  keeps proj body -> (forall e, keeps proj (h e)) -> keeps proj (try_except body h).
Proof.
  intros Hb Hh w. unfold try_except. specialize (Hb w).
  destruct (body w) as [[a|e] w1]; cbn [snd] in *; [exact Hb|].
  now rewrite Hh.
Qed.

Lemma keeps_logging_error (msg : string) :
  (forall w w', env w = env w' -> proj w = proj w') ->
  keeps proj (logging_error msg).
Proof. intros proj_of_env w. apply proj_of_env. reflexivity. Qed.

Lemma keeps_log_and_reraise {A} (name : string) (e : exn) :
  (forall w w', env w = env w' -> proj w = proj w') ->
  keeps proj (log_and_reraise (A := A) name e).
Proof.
  intros proj_of_env. unfold log_and_reraise.
  repeat (apply keeps_bind; [now apply keeps_logging_error|intros ?]).
  apply keeps_raise.
Qed.

(** A handler that raises again leaves a returned value to the body. *)
Lemma returned_by_the_body {A} (body : M A) (name : string) (w w' : world) (a : A) :
  keeps proj body ->
  try_except body (log_and_reraise name) w = (Ret a, w') -> proj w' = proj w.
Proof.
  intros Hb. unfold try_except. specialize (Hb w).
  destruct (body w) as [[a0|e] w1]; cbn [snd] in Hb.
  - intros E. injection E as _ <-. exact Hb.
  - discriminate.
Qed.

Lemma keeps_requests_send (net : nat -> request -> outcome exn response) (rq : request) :
  keeps proj (requests_send net rq).
Proof. intros w. apply proj_of_state; reflexivity. Qed.

Lemma keeps_build_url (path : string) : keeps proj (_build_url path).
Proof. intros w. reflexivity. Qed.

Lemma keeps_validate (lf : option string) : keeps proj (_validate_local_filename lf).
Proof.
  intros w. unfold _validate_local_filename. destruct lf as [name|]; [|reflexivity].
  destruct (String.eqb (strip name) ""); [reflexivity|].
  destruct (negb (isfile w name)); reflexivity.
Qed.

Lemma keeps_read_file (name : string) : keeps proj (read_file name).
Proof. intros w. unfold read_file. destruct (files w name) as [[c|]|]; reflexivity. Qed.

Lemma keeps_safe_json (r : response) : keeps proj (_safe_json r).
Proof. intros w. unfold _safe_json. destruct (json_body r); reflexivity. Qed.

Lemma keeps_raise_for_status (r : response) : keeps proj (raise_for_status r).
Proof.
  intros w. unfold raise_for_status.
  destruct (_ && _); [reflexivity|]. destruct (_ && _); reflexivity.
Qed.

Lemma keeps_getitem (v : value) (key : string) : keeps proj (getitem v key).
Proof.
  intros w. unfold getitem. destruct v; try reflexivity.
  destruct (lookup key kvs); reflexivity.
Qed.

Lemma keeps_iterate (v : value) : keeps proj (iterate v).
Proof. intros w. unfold iterate. destruct v; reflexivity. Qed.

Lemma keeps_for_each {A B} (f : A -> M B) (l : list A) :
  (forall a, keeps proj (f a)) -> keeps proj (for_each f l).
Proof.
  intros Hf. induction l as [|x l IH]; cbn [for_each]; [apply keeps_ret|].
  apply keeps_bind; [apply Hf|intros y].
  apply keeps_bind; [exact IH|intros ys]. apply keeps_ret.
Qed.

Lemma keeps_columns (keys : list string) (row : value) : keeps proj (columns keys row).
Proof.
  unfold columns. apply keeps_bind; [|intros ?; apply keeps_ret].
  apply keeps_for_each. intros k. apply keeps_getitem.
Qed.

Lemma keeps_b64decode (dec : string -> option (list byte)) (v : value) :
  keeps proj (base64_b64decode dec v).
Proof.
  intros w. unfold base64_b64decode. destruct v; try reflexivity.
  destruct (dec s); reflexivity.
Qed.

Lemma keeps_retry_loop {A} (stop : nat -> bool) (wait : nat -> Z) (fn : M A) :
  keeps proj fn -> forall fuel n, keeps proj (retry_loop stop wait fuel n fn).
Proof.
  intros Hfn. induction fuel as [|fuel IH]; intros n w; cbn [retry_loop];
    pose proof (Hfn (begin_attempt w)) as H;
    destruct (fn (begin_attempt w)) as [[a|e] w1]; cbn [snd] in *;
    assert (Hb : proj (begin_attempt w) = proj w) by (apply proj_of_state; reflexivity);
    try (destruct (negb _)); try (destruct (stop n)); cbn [snd]; try congruence.
  rewrite IH. rewrite <- Hb, <- H. apply proj_of_state; reflexivity.
Qed.

Ltac keeps_step :=
  match goal with
  | |- keeps _ (bind _ _) => apply keeps_bind; [|intros ?]
  | |- keeps _ (try_except _ _) => apply keeps_try_except; [|intros ?]
  | |- keeps _ (ret _) => apply keeps_ret
  | |- keeps _ (raise _) => apply keeps_raise
  | |- keeps _ (log_and_reraise _ _) => apply keeps_log_and_reraise; assumption
  | |- keeps _ (requests_send _ _) => apply keeps_requests_send
  | |- keeps _ (_build_url _) => apply keeps_build_url
  | |- keeps _ (_validate_local_filename _) => apply keeps_validate
  | |- keeps _ (read_file _) => apply keeps_read_file
  | |- keeps _ (_safe_json _) => apply keeps_safe_json
  | |- keeps _ (raise_for_status _) => apply keeps_raise_for_status
  | |- keeps _ (getitem _ _) => apply keeps_getitem
  | |- keeps _ (iterate _) => apply keeps_iterate
  | |- keeps _ (for_each _ _) => apply keeps_for_each; intros ?
  | |- keeps _ (columns _ _) => apply keeps_columns
  | |- keeps _ (base64_b64decode _ _) => apply keeps_b64decode
  | |- keeps _ (if ?b then _ else _) => destruct b
  | |- keeps _ (match ?x with _ => _ end) => destruct x
  end.

Lemma keeps_undecorated (net : nat -> request -> outcome exn response)
    (dec : string -> option (list byte)) (op : operation) :
  (forall w w', env w = env w' -> proj w = proj w') ->
  (forall name data, keeps proj (write_file name data)) \/ is_get_image op = false ->
  keeps proj (undecorated net dec op).
Proof.
  intros proj_of_env H. destruct op; cbn [undecorated];
    unfold get_ping_fn, get_users_fn, get_images_fn, post_image_fn,
      get_image_fn, get_image_labels_fn, get_images_with_label_fn,
      delete_images_fn, requests_get, requests_post, requests_delete;
    cbv zeta; repeat (keeps_step; cbv zeta).
  all: destruct H as [H|H]; [apply H|discriminate].
Qed.

(** What an attempt that returns a value leaves alone: the handler did
    not run. *)
Lemma returned_undecorated (net : nat -> request -> outcome exn response)
    (dec : string -> option (list byte)) (op : operation) (w w' : world) (a : value) :
  (forall name data, keeps proj (write_file name data)) \/ is_get_image op = false ->
  undecorated net dec op w = (Ret a, w') -> proj w' = proj w.
Proof.
  intros H. destruct op; cbn [undecorated];
    unfold get_ping_fn, get_users_fn, get_images_fn, post_image_fn,
      get_image_fn, get_image_labels_fn, get_images_with_label_fn,
      delete_images_fn, requests_get, requests_post, requests_delete;
    apply returned_by_the_body;
    cbv zeta; repeat (keeps_step; cbv zeta).
  all: destruct H as [H|H]; [apply H|discriminate].
Qed.

End Keeps.

Lemma write_file_keeps (name : value) (data : list byte) :
  keeps WEB_SERVICE_URL (write_file name data) /\
  keeps write_failure (write_file name data) /\
  keeps logged (write_file name data).
Proof.
  repeat split; intros w; unfold write_file;
    destruct name as [|b|fd|name|l|l|kvs]; cbn zeta;
    try destruct (fd <? 0)%Z;
    try destruct (contains Ascii.zero name);
    try destruct (files w name) as [[c|]|];
    try destruct (write_failure w _); reflexivity.
Qed.

Lemma env_eq (w w' : world) :
  env w = env w' ->
  WEB_SERVICE_URL w = WEB_SERVICE_URL w' /\ files w = files w' /\
  write_failure w = write_failure w'.
Proof. unfold env. intros E. injection E as E1 E2 E3. auto. Qed.

Lemma retry_loop_starts_an_attempt {A} (stop : nat -> bool) (wait : nat -> Z) (fn : M A) :
  (forall w r w', fn w = (r, w') -> attempts w' = attempts w) ->
  forall fuel n w,
    (attempts w < attempts (snd (retry_loop stop wait fuel n fn w)))%nat.
Proof.
  intros Hfn. induction fuel as [|fuel IH]; intros n w; cbn [retry_loop];
    destruct (fn (begin_attempt w)) as [[a|e] w1] eqn:E;
    apply Hfn in E; cbn [begin_attempt attempts] in E;
    try (destruct (negb _)); try (destruct (stop n)); cbn [snd]; try lia.
  specialize (IH (S n) (sleep (wait n) w1)). cbn [sleep attempts] in IH. lia.
Qed.

(** X15.  What the operations never touch.  No call changes the module variable
    [WEB_SERVICE_URL], whatever the transport does and however many
    attempts the call makes.  A call that returns from its first attempt
    has logged nothing and has not slept, and unless it is [get_image] it
    has left every file as it was. *)
Theorem only_get_image_writes
    (net : nat -> request -> outcome exn response)
    (dec : string -> option (list byte)) (op : operation) (w : world) :
  let w' := snd (call net dec op w) in
  WEB_SERVICE_URL w' = WEB_SERVICE_URL w /\
  forall a, fst (call net dec op w) = Ret a -> attempts w' = S (attempts w) ->
    logged w' = logged w /\ slept w' = slept w /\
    (is_get_image op = true \/ files w' = files w).
Proof.
  cbv zeta. split.
  - apply (keeps_retry_loop WEB_SERVICE_URL).
    + intros w1 w2 E _. now apply env_eq in E.
    + apply keeps_undecorated.
      * intros w1 w2 E _. now apply env_eq in E.
      * intros w1 w2 E. now apply env_eq in E.
      * left. intros. apply write_file_keeps.
  - unfold call, retry. cbn [retry_loop].
    destruct (undecorated net dec op (begin_attempt w)) as [[a0|e] w1] eqn:E.
    + cbn [fst snd]. intros a _ _.
      destruct (attempt_undecorated net dec op _ _ _ E) as (_ & A2 & _).
      split; [|split; [exact A2|]].
      * apply (returned_undecorated logged) in E; [exact E| |].
        -- intros w2 w3 _ L. exact L.
        -- left. intros. apply write_file_keeps.
      * destruct (is_get_image op) eqn:Hop; [now left|right].
        apply (returned_undecorated files) in E; [exact E| |now right].
        intros w2 w3 F _. now apply env_eq in F.
    + destruct (negb (retry_if_exception_type e)); [discriminate|].
      cbn [stop_after_attempt Nat.leb]. intros a _ Ha.
      destruct (attempt_undecorated net dec op _ _ _ E) as (A1 & _).
      cbn [begin_attempt attempts] in A1.
      pose proof (retry_loop_starts_an_attempt (stop_after_attempt 3)
                    (wait_exponential 1 2 30) (undecorated net dec op)
                    (fun w0 r w0' H => proj1 (attempt_undecorated net dec op w0 r w0' H))
                    2 2 (sleep (wait_exponential 1 2 30 1) w1)) as G.
      cbn [sleep attempts] in G. cbn [snd] in Ha.
      match type of Ha with attempts ?x = _ =>
        match type of G with (_ < attempts ?y)%nat => change y with x in G end
      end.
      exfalso. lia.
Qed.

Lemma only_get_image_writes_witness :
  let w := fresh_world "https://photoapp" one_empty_file in
  let op := Post_image (VInt 80001) (Some "empty.jpg") in
  let w' := snd (call (always uploaded) no_decoder op w) in
  (fst (call (always uploaded) no_decoder op w) = Ret (VInt 1001) /\
   attempts w' = S (attempts w)) /\
  WEB_SERVICE_URL w' = WEB_SERVICE_URL w /\
  logged w' = logged w /\ slept w' = slept w /\
  (is_get_image op = true \/ files w' = files w).
Proof.
  intros w op w'.
  assert (H1 : fst (call (always uploaded) no_decoder op w) = Ret (VInt 1001))
    by reflexivity.
  assert (H2 : attempts w' = S (attempts w)) by reflexivity.
  split; [split; assumption|].
  destruct (only_get_image_writes (always uploaded) no_decoder op w) as [U H].
  split; [exact U|]. exact (H _ H1 H2).
Defined.

(** *** Two runs of an attempt *)

Lemma reader_ret {A} (a : A) : reader (ret a).
Proof. intros w. repeat split; intros; discriminate. Qed.

Lemma reader_raise {A} (e : exn) :
  retry_if_exception_type e = false -> reader (raise (A := A) e).
Proof.
  intros He w. repeat split. intros e' E. now injection E as <-.
Qed.

Lemma reader_bind {A B} (m : M A) (k : A -> M B) :
  reader m -> (forall a, reader (k a)) -> reader (bind m k).
Proof.
  intros Hm Hk w. unfold bind.
  destruct (Hm w) as (M1 & M2 & M3).
  destruct (m w) as [[a|e] w1] eqn:E; cbn [fst snd] in *; subst w1.
  - destruct (Hk a w) as (K1 & K2 & K3). repeat split; auto.
    intros w2 Hw. specialize (M3 w2 Hw).
    destruct (Hm w2) as (N1 & _). destruct (m w2) as [r2 w2']; cbn [fst snd] in *.
    subst. now apply K3.
  - split; [reflexivity|]. split.
    + intros e' E'. injection E' as <-. now apply M2.
    + intros w2 Hw. specialize (M3 w2 Hw).
      destruct (m w2) as [r2 w2']; cbn [fst snd] in *. now subst.
Qed.

Lemma reader_build_url (path : string) : reader (_build_url path).
Proof.
  intros w. unfold _build_url. cbn. repeat split; try discriminate.
  intros w2 E. apply env_eq in E. destruct E as (E & _). now rewrite E.
Qed.

Lemma reader_validate (lf : option string) : reader (_validate_local_filename lf).
Proof.
  intros w. unfold _validate_local_filename. destruct lf as [name|].
  2: { cbn. repeat split. intros e E. now injection E as <-. }
  destruct (String.eqb (strip name) "").
  { cbn. repeat split. intros e E. now injection E as <-. }
  unfold isfile. split; [destruct (negb _); reflexivity|]. split.
  - destruct (negb _); cbn; intros e E; [now injection E as <-|discriminate].
  - intros w2 E. apply env_eq in E. destruct E as (E1 & E2 & E3).
    cbn beta. rewrite E2. destruct (negb _); reflexivity.
Qed.

Lemma reader_read_file (name : string) : reader (read_file name).
Proof.
  intros w. unfold read_file. split; [destruct (files w name) as [[c|]|]; reflexivity|].
  split.
  - destruct (files w name) as [[c|]|]; cbn; intros e E; try discriminate;
      now injection E as <-.
  - intros w2 E. apply env_eq in E. destruct E as (E1 & E2 & E3).
    cbn beta. rewrite E2. destruct (files w name) as [[c|]|]; reflexivity.
Qed.

Ltac reader_step :=
  match goal with
  | |- reader (bind _ _) => apply reader_bind; [|intros ?]
  | |- reader (ret _) => apply reader_ret
  | |- reader (raise _) => apply reader_raise; reflexivity
  | |- reader (if ?b then _ else _) => destruct b
  | |- reader (match ?x with _ => _ end) => destruct x
  end.

Lemma reader_safe_json (r : response) : reader (_safe_json r).
Proof. unfold _safe_json. repeat reader_step. Qed.

Lemma reader_raise_for_status (r : response) : reader (raise_for_status r).
Proof. unfold raise_for_status. repeat reader_step. Qed.

Lemma reader_getitem (v : value) (key : string) : reader (getitem v key).
Proof. unfold getitem. repeat reader_step. Qed.

Lemma reader_iterate (v : value) : reader (iterate v).
Proof. unfold iterate. repeat reader_step. Qed.

Lemma reader_for_each {A B} (f : A -> M B) (l : list A) :
  (forall a, reader (f a)) -> reader (for_each f l).
Proof.
  intros Hf. induction l as [|x l IH]; cbn [for_each]; [apply reader_ret|].
  apply reader_bind; [apply Hf|intros y].
  apply reader_bind; [exact IH|intros ys]. apply reader_ret.
Qed.

Lemma reader_columns (keys : list string) (row : value) : reader (columns keys row).
Proof.
  unfold columns. apply reader_bind; [|intros ?; apply reader_ret].
  apply reader_for_each. intros k. apply reader_getitem.
Qed.

Lemma reader_b64decode (dec : string -> option (list byte)) (v : value) :
  reader (base64_b64decode dec v).
Proof. unfold base64_b64decode. repeat reader_step. Qed.

Lemma settled_reader {A} (m : M A) : reader m -> settled m.
Proof.
  intros Hm w. destruct (Hm w) as (M1 & M2 & M3). rewrite M1.
  split; [reflexivity|]. split; [exact M2|].
  intros w2 Hw. split; [now apply M3|].
  destruct (Hm w2) as (N1 & _). now rewrite N1.
Qed.

Lemma settled_bind {A B} (m : M A) (k : A -> M B) :
  settled m -> (forall a, settled (k a)) -> settled (bind m k).
Proof.
  intros Hm Hk w. unfold bind.
  destruct (Hm w) as (M1 & M2 & M3).
  destruct (m w) as [[a|e] w1] eqn:E; cbn [fst snd] in *.
  - destruct (Hk a w1) as (K1 & K2 & K3). split; [congruence|]. split; [exact K2|].
    intros w2 Hw. destruct (M3 w2 Hw) as [F1 F2].
    destruct (m w2) as [r2 w2']; cbn [fst snd] in *. subst r2. now apply K3.
  - split; [exact M1|]. split.
    + intros e' E'. injection E' as <-. now apply M2.
    + intros w2 Hw. destruct (M3 w2 Hw) as [F1 F2].
      destruct (m w2) as [r2 w2']; cbn [fst snd] in *. subst r2. auto.
Qed.

Lemma settled_write_file (name : value) (data : list byte) :
  settled (write_file name data).
Proof.
  intros w. unfold write_file. split; [|split].
  - destruct name as [ |b|fd|path|l|l|kvs]; cbn zeta;
      try destruct (fd <? 0)%Z;
      try destruct (contains Ascii.zero path);
      try destruct (files w path) as [[c|]|];
      try destruct (write_failure w _); reflexivity.
  - destruct name as [ |b|fd|path|l|l|kvs]; cbn zeta;
      try destruct (fd <? 0)%Z;
      try destruct (contains Ascii.zero path);
      try destruct (files w path) as [[c|]|];
      try destruct (write_failure w _);
      cbn; intros e E; try discriminate; now injection E as <-.
  - intros w2 E. apply env_eq in E. destruct E as (E1 & E2 & E3).
    cbn zeta. rewrite E2, E3.
    destruct name as [ |b|fd|path|l|l|kvs];
      try destruct (fd <? 0)%Z;
      try destruct (contains Ascii.zero path);
      try destruct (files w path) as [[c|]|];
      try destruct (write_failure w _);
      unfold env; cbn; rewrite ?E1, ?E2, ?E3; split; reflexivity.
Qed.

Ltac settled_step :=
  match goal with
  | |- settled (bind _ _) => apply settled_bind; [|intros ?]
  | |- settled (write_file _ _) => apply settled_write_file
  | |- settled (if ?b then _ else _) => destruct b
  | |- settled (match ?x with _ => _ end) => destruct x
  | |- settled (ret _) => apply settled_reader, reader_ret
  | |- settled (raise _) => apply settled_reader, reader_raise; reflexivity
  | |- settled (_safe_json _) => apply settled_reader, reader_safe_json
  | |- settled (raise_for_status _) => apply settled_reader, reader_raise_for_status
  | |- settled (getitem _ _) => apply settled_reader, reader_getitem
  | |- settled (iterate _) => apply settled_reader, reader_iterate
  | |- settled (for_each _ _) =>
      apply settled_reader, reader_for_each; intros ?; apply reader_columns
  | |- settled (base64_b64decode _ _) => apply settled_reader, reader_b64decode
  end.

Lemma twin_reader_then {A B} (m : M A)
    (k : (nat -> request -> outcome exn response) -> A -> M B) :
  reader m -> (forall a, twin (fun net => k net a)) ->
  twin (fun net => bind m (k net)).
Proof.
  intros Hm Hk net1 net2 w1 w2 Hw. unfold bind.
  destruct (Hm w1) as (M1 & _ & _). destruct (Hm w2) as (N1 & _ & N3).
  specialize (N3 w1 Hw).
  destruct (m w1) as [r1 w1']; destruct (m w2) as [r2 w2']; cbn [fst snd] in *.
  subst w1' w2' r2. destruct r1 as [a|e].
  - exact (Hk a net1 net2 w1 w2 Hw).
  - left. cbn. auto.
Qed.

Lemma twin_send_then {B} (rq : request) (k : response -> M B) :
  (forall resp, settled (k resp)) ->
  twin (fun net => bind (requests_send net rq) k).
Proof.
  intros Hk net1 net2 w1 w2 Hw. right. exists rq. unfold bind, requests_send.
  set (w1' := {| WEB_SERVICE_URL := WEB_SERVICE_URL w1; files := files w1;
                 write_failure := write_failure w1;
                 sent := (sent w1 ++ [rq])%list; slept := slept w1;
                 attempts := attempts w1; logged := logged w1 |}).
  set (w2' := {| WEB_SERVICE_URL := WEB_SERVICE_URL w2; files := files w2;
                 write_failure := write_failure w2;
                 sent := (sent w2 ++ [rq])%list; slept := slept w2;
                 attempts := attempts w2; logged := logged w2 |}).
  assert (Hw' : env w1' = env w2') by exact Hw.
  assert (S1 : sent (snd (match net1 (List.length (sent w1)) rq with
                          | Ret a => k a w1' | Raise e => (Raise e, w1') end))
               = (sent w1 ++ [rq])%list).
  { destruct (net1 _ rq) as [resp|e]; [|reflexivity].
    destruct (Hk resp w1') as (K1 & _). exact K1. }
  assert (S2 : sent (snd (match net2 (List.length (sent w2)) rq with
                          | Ret a => k a w2' | Raise e => (Raise e, w2') end))
               = (sent w2 ++ [rq])%list).
  { destruct (net2 _ rq) as [resp|e]; [|reflexivity].
    destruct (Hk resp w2') as (K1 & _). exact K1. }
  split; [exact S1|]. split; [exact S2|]. split.
  - intros E. rewrite E. destruct (net2 _ rq) as [resp|e]; [|now cbn].
    destruct (Hk resp w2') as (_ & _ & K3). now apply K3.
  - intros e E. rewrite E. cbn. auto.
Qed.

Lemma handler_transparent {A} (body : M A) (name : string) (w : world) :
  fst (try_except body (log_and_reraise name) w) = fst (body w) /\
  sent (snd (try_except body (log_and_reraise name) w)) = sent (snd (body w)) /\
  env (snd (try_except body (log_and_reraise name) w)) = env (snd (body w)).
Proof.
  unfold try_except. destruct (body w) as [[a|e] w1]; cbn; auto.
Qed.

Lemma twin_handler {A} (F : (nat -> request -> outcome exn response) -> M A)
    (name : string) :
  twin F -> twin (fun net => try_except (F net) (log_and_reraise name)).
Proof.
  intros HF net1 net2 w1 w2 Hw.
  destruct (handler_transparent (F net1) name w1) as (A1 & A2 & A3).
  destruct (handler_transparent (F net2) name w2) as (B1 & B2 & B3).
  rewrite A1, A2, A3, B1, B2, B3. exact (HF net1 net2 w1 w2 Hw).
Qed.

Lemma twin_undecorated (dec : string -> option (list byte)) (op : operation) :
  twin (fun net => undecorated net dec op).
Proof.
  destruct op; cbn [undecorated];
    unfold get_ping_fn, get_users_fn, get_images_fn, post_image_fn,
      get_image_fn, get_image_labels_fn, get_images_with_label_fn,
      delete_images_fn, requests_get, requests_post, requests_delete;
    apply twin_handler;
    repeat (apply twin_reader_then;
            [first [apply reader_build_url|apply reader_validate|apply reader_read_file]
            |intros ?]);
    cbv zeta; apply twin_send_then; intros ?; cbv zeta; repeat (settled_step; cbv zeta).
Qed.

(** *** Retries *)

Lemma retry_loop_unfold {A} (stop : nat -> bool) (wait : nat -> Z)
    (fuel n : nat) (fn : M A) (w : world) :
  retry_loop stop wait fuel n fn w =
  match fn (begin_attempt w) with
  | (Ret a, w') => (Ret a, w')
  | (Raise e, w') =>
      if negb (retry_if_exception_type e) then (Raise e, w')
      else if stop n then (Raise e, w')
      else match fuel with
           | O => (Raise e, w')
           | S fuel' => retry_loop stop wait fuel' (S n) fn (sleep (wait n) w')
           end
  end.
Proof. destruct fuel; reflexivity. Qed.

(** An attempt over a transport that answers raises nothing to retry. *)
Lemma answered_attempt_is_final (dec : string -> option (list byte))
    (op : operation) (resp : response) (w : world) (e : exn) :
  fst (undecorated (always resp) dec op w) = Raise e ->
  retry_if_exception_type e = false.
Proof.
  intros H. destruct (undecorated (always resp) dec op w) as [r w'] eqn:E.
  cbn in H. subst r.
  destruct (attempt_undecorated (always resp) dec op _ _ _ E) as (_ & _ & _ & A4).
  destruct (retry_if_exception_type e) eqn:R; [|reflexivity].
  destruct (A4 e eq_refl R) as [rq Hrq]. discriminate.
Qed.

Lemma retry_answered (dec : string -> option (list byte))
    (op : operation) (resp : response) (w : world) :
  call (always resp) dec op w = undecorated (always resp) dec op (begin_attempt w).
Proof.
  unfold call, retry. rewrite retry_loop_unfold.
  pose proof (answered_attempt_is_final dec op resp (begin_attempt w)) as H.
  destruct (undecorated (always resp) dec op (begin_attempt w)) as [[a|e] w'];
    [reflexivity|].
  now rewrite (H e eq_refl).
Qed.

(** An attempt that ends with an exception the decorator retries has sent
    its request, and the exception is the transport's answer to it. *)
Lemma retried_attempt_sent (net : nat -> request -> outcome exn response)
    (dec : string -> option (list byte)) (op : operation) (w w' : world) (e : exn) :
  undecorated net dec op w = (Raise e, w') ->
  retry_if_exception_type e = true ->
  env w' = env w /\
  exists rq, sent w' = (sent w ++ [rq])%list /\ net (List.length (sent w)) rq = Raise e.
Proof.
  intros E R.
  set (r0 := {| status_code := 0; reason := ""%string; url := ""%string;
                json_body := None |}).
  destruct (twin_undecorated dec op net (always r0) w w eq_refl)
    as [(_ & _ & H3 & _)|[rq (S1 & _ & H3 & H4)]].
  - rewrite E in H3. cbn in H3. symmetry in H3.
    rewrite (answered_attempt_is_final dec op r0 w e H3) in R. discriminate.
  - rewrite E in S1, H4. cbn in S1, H4.
    destruct (net (List.length (sent w)) rq) as [resp|e'] eqn:N.
    + destruct (twin_undecorated dec op net (always resp) w w eq_refl)
        as [(T1 & _)|[rq' (T1 & _ & T3 & _)]].
      * rewrite E in T1. cbn in T1. rewrite S1 in T1.
        apply (f_equal (@List.length _)) in T1. rewrite length_app in T1. cbn in T1. lia.
      * rewrite E in T1, T3. cbn in T1, T3. rewrite S1 in T1.
        apply app_inj_tail in T1. destruct T1 as [_ <-].
        destruct (T3 N) as [T _]. symmetry in T.
        rewrite (answered_attempt_is_final dec op resp w e T) in R. discriminate.
    + destruct (H4 e' eq_refl) as [H5 H6]. injection H5 as <-. eauto.
Qed.

(** X16.  Failures of the transport that the retries get over leave no trace in
    the outcome.  When the first [k] requests of a call ([k] at most 2)
    meet a [ConnectionError] or a [Timeout] and the next one is answered,
    the call returns the value, or raises the exception, that it returns
    or raises when its first request gets that answer. *)
Theorem transient_failures_are_invisible
    (net : nat -> request -> outcome exn response)
    (dec : string -> option (list byte))
    (op : operation) (w : world) (resp : response) (k : nat) :
  (k <= 2)%nat ->
  (forall i rq, (i < k)%nat ->
     exists e, net (List.length (sent w) + i)%nat rq = Raise e /\
               retry_if_exception_type e = true) ->
  (forall rq, net (List.length (sent w) + k)%nat rq = Ret resp) ->
  fst (call net dec op w) = fst (call (always resp) dec op w).
Proof.
  intros Hk Hfail Hresp. rewrite retry_answered. unfold call, retry.
  assert (G : forall k fuel n w1,
    env w1 = env w -> (n + k <= 3)%nat -> (3 - n <= fuel)%nat ->
    (forall i rq, (i < k)%nat ->
       exists e, net (List.length (sent w1) + i)%nat rq = Raise e /\
                 retry_if_exception_type e = true) ->
    (forall rq, net (List.length (sent w1) + k)%nat rq = Ret resp) ->
    fst (retry_loop (stop_after_attempt 3) (wait_exponential 1 2 30) fuel n
           (undecorated net dec op) w1)
      = fst (undecorated (always resp) dec op (begin_attempt w)) /\
    env (snd (retry_loop (stop_after_attempt 3) (wait_exponential 1 2 30) fuel n
                (undecorated net dec op) w1))
      = env (snd (undecorated (always resp) dec op (begin_attempt w)))).
  { clear k Hk Hfail Hresp.
    induction k as [|k IH]; intros fuel n w1 Hw Hn Hfuel Hfail Hresp;
      rewrite retry_loop_unfold;
      pose proof (answered_attempt_is_final dec op resp (begin_attempt w)) as Hfin;
      (assert (Hw' : env (begin_attempt w1) = env (begin_attempt w)) by exact Hw);
      destruct (twin_undecorated dec op net (always resp) _ _ Hw')
        as [(_ & _ & H3 & H4)|[rq (S1 & _ & H3 & H4)]].
    - destruct (undecorated net dec op (begin_attempt w1)) as [[a|e] w1'];
        cbn [fst snd] in *; [auto|].
      symmetry in H3. rewrite (Hfin e H3). cbn. rewrite <- H3. auto.
    - cbn [begin_attempt sent] in H3. rewrite Nat.add_0_r in Hresp.
      destruct (H3 (Hresp rq)) as [H5 H6].
      destruct (undecorated net dec op (begin_attempt w1)) as [[a|e] w1'];
        cbn [fst snd] in *; [auto|].
      symmetry in H5. rewrite (Hfin e H5). cbn. rewrite <- H5. auto.
    - destruct (undecorated net dec op (begin_attempt w1)) as [[a|e] w1'];
        cbn [fst snd] in *; [auto|].
      symmetry in H3. rewrite (Hfin e H3). cbn. rewrite <- H3. auto.
    - destruct (Hfail 0%nat rq ltac:(lia)) as [e0 [N R]]. rewrite Nat.add_0_r in N.
      cbn [begin_attempt sent] in H4. destruct (H4 e0 N) as [H5 H6].
      destruct (undecorated net dec op (begin_attempt w1)) as [r w1'];
        cbn [fst snd] in *. subst r. rewrite R. cbn [negb].
      assert (St : stop_after_attempt 3 n = false).
      { unfold stop_after_attempt. apply Nat.leb_gt. lia. }
      rewrite St. destruct fuel as [|fuel]; [exfalso; lia|].
      cbn [begin_attempt sent] in S1.
      apply IH.
      + cbn. rewrite <- Hw. exact H6.
      + lia.
      + lia.
      + intros i rq' Hi. cbn [sleep sent]. rewrite S1, length_app. cbn [List.length].
        replace (List.length (sent w1) + 1 + i)%nat
          with (List.length (sent w1) + S i)%nat by lia.
        apply Hfail. lia.
      + intros rq'. cbn [sleep sent]. rewrite S1, length_app. cbn [List.length].
        replace (List.length (sent w1) + 1 + k)%nat
          with (List.length (sent w1) + S k)%nat by lia.
        apply Hresp. }
  destruct (G k 3%nat 1%nat w eq_refl) as [G1 G2]; auto; try lia.
Qed.

Lemma transient_failures_are_invisible_witness :
  let net := fun (n : nat) (_ : request) =>
               if (n <? 2)%nat then Raise (Timeout "timed out") else Ret uploaded in
  let w := fresh_world "https://photoapp" one_empty_file in
  let op := Post_image (VInt 80001) (Some "empty.jpg") in
  ((2 <= 2)%nat /\
   (forall i rq, (i < 2)%nat ->
      exists e, net (List.length (sent w) + i)%nat rq = Raise e /\
                retry_if_exception_type e = true) /\
   (forall rq, net (List.length (sent w) + 2)%nat rq = Ret uploaded)) /\
  fst (call net no_decoder op w) = fst (call (always uploaded) no_decoder op w).
Proof.
  intros net w op.
  assert (H1 : forall i rq, (i < 2)%nat ->
            exists e, net (List.length (sent w) + i)%nat rq = Raise e /\
                      retry_if_exception_type e = true).
  { intros i rq Hi. exists (Timeout "timed out"). unfold net. cbn [w fresh_world sent List.length Nat.add].
    apply Nat.ltb_lt in Hi. rewrite Hi. split; reflexivity. }
  assert (H2 : forall rq, net (List.length (sent w) + 2)%nat rq = Ret uploaded)
    by reflexivity.
  split; [repeat split; auto|].
  exact (transient_failures_are_invisible net no_decoder op w uploaded 2 (le_n 2) H1 H2).
Defined.

(** The course of a call: [k] retried attempts, then a last one. *)
Lemma retry_loop_counts (net : nat -> request -> outcome exn response)
    (dec : string -> option (list byte)) (op : operation) :
  forall fuel n w r w',
  (3 - n <= fuel)%nat ->
  retry_loop (stop_after_attempt 3) (wait_exponential 1 2 30) fuel n
    (undecorated net dec op) w = (r, w') ->
  exists k,
    (k = 0%nat \/ (n + k <= 3)%nat) /\
    attempts w' = (attempts w + S k)%nat /\
    slept w' = (slept w ++ map (wait_exponential 1 2 30) (seq n k))%list /\
    (List.length (sent w) + k <= List.length (sent w'))%nat /\
    (List.length (sent w') <= List.length (sent w) + S k)%nat /\
    forall e, r = Raise e -> retry_if_exception_type e = true ->
      (3 <= n + k)%nat /\
      List.length (sent w') = (List.length (sent w) + S k)%nat /\
      exists rq, net (List.length (sent w) + k)%nat rq = Raise e.
Proof.
  assert (Last : forall n w r w1,
    undecorated net dec op (begin_attempt w) = (r, w1) ->
    (forall e, r = Raise e -> retry_if_exception_type e = true -> (3 <= n)%nat) ->
    (attempts w1 = (attempts w + 1)%nat /\
     slept w1 = (slept w ++ map (wait_exponential 1 2 30) (seq n 0))%list /\
     (List.length (sent w) + 0 <= List.length (sent w1))%nat /\
     (List.length (sent w1) <= List.length (sent w) + 1)%nat /\
     forall e, r = Raise e -> retry_if_exception_type e = true ->
       (3 <= n + 0)%nat /\
       List.length (sent w1) = (List.length (sent w) + 1)%nat /\
       exists rq, net (List.length (sent w) + 0)%nat rq = Raise e)).
  { intros n w r w1 E Hstop.
    destruct (attempt_undecorated net dec op _ _ _ E) as (A1 & A2 & A3 & _).
    cbn [begin_attempt attempts slept sent] in A1, A2, A3.
    cbn [seq map]. rewrite app_nil_r, !Nat.add_0_r.
    split; [lia|]. split; [exact A2|].
    split; [destruct A3 as [->|[rq ->]]; rewrite ?length_app; cbn; lia|].
    split; [destruct A3 as [->|[rq ->]]; rewrite ?length_app; cbn; lia|].
    intros e -> R. split; [now apply (Hstop e)|].
    destruct (retried_attempt_sent net dec op _ _ _ E R) as [_ [rq [S1 N]]].
    cbn [begin_attempt sent] in S1, N. rewrite S1, length_app. cbn [List.length].
    split; [lia|]. now exists rq. }
  induction fuel as [|fuel IH]; intros n w r w' Hfuel; rewrite retry_loop_unfold;
    destruct (undecorated net dec op (begin_attempt w)) as [[a|e] w1] eqn:E.
  - intros H; injection H as <- <-. exists 0%nat. split; [now left|].
    apply (Last n w _ _ E). intros; discriminate.
  - assert (St : stop_after_attempt 3 n = true)
      by (unfold stop_after_attempt; apply Nat.leb_le; lia).
    rewrite St.
    destruct (negb (retry_if_exception_type e)); intros H'; injection H' as <- <-;
      exists 0%nat; (split; [now left|]); apply (Last n w _ _ E); intros; lia.
  - intros H; injection H as <- <-. exists 0%nat. split; [now left|].
    apply (Last n w _ _ E). intros; discriminate.
  - destruct (retry_if_exception_type e) eqn:R; cbn [negb].
    + destruct (stop_after_attempt 3 n) eqn:St.
      * intros H; injection H as <- <-. exists 0%nat. split; [now left|].
        apply (Last n w _ _ E). intros. unfold stop_after_attempt in St.
        apply Nat.leb_le in St. exact St.
      * unfold stop_after_attempt in St. apply Nat.leb_gt in St.
        destruct (attempt_undecorated net dec op _ _ _ E) as (A1 & A2 & _).
        cbn [begin_attempt attempts slept] in A1, A2.
        destruct (retried_attempt_sent net dec op _ _ _ E R) as [_ [rq [S1 N]]].
        cbn [begin_attempt sent] in S1, N.
        intros H. apply IH in H; [|lia].
        destruct H as [k (K1 & K2 & K3 & K4 & K5 & K6)].
        cbn [sleep attempts slept sent] in K2, K3, K4, K5, K6.
        rewrite S1, length_app in K4, K5, K6. cbn [List.length] in K4, K5, K6.
        exists (S k). split; [right; lia|]. split; [lia|].
        split; [rewrite K3, A2, <- app_assoc; reflexivity|].
        split; [lia|]. split; [lia|].
        intros e' E' R'. destruct (K6 e' E' R') as (L1 & L2 & [rq' Hrq]).
        split; [lia|]. split; [lia|]. exists rq'.
        replace (List.length (sent w) + S k)%nat
          with (List.length (sent w) + 1 + k)%nat by lia. exact Hrq.
    + intros H; injection H as <- <-. exists 0%nat. split; [now left|].
      apply (Last n w _ _ E). intros e' E' R'. injection E' as <-. congruence.
Qed.

(** X17.  Every call makes one, two or three attempts, with one request at
    most in each and a sleep between two attempts, and no more: the
    number of sleeps is the number of attempts less one, and a request was
    sent in every attempt but possibly the last. *)
Theorem calls_make_at_most_three_attempts
    (net : nat -> request -> outcome exn response)
    (dec : string -> option (list byte)) (op : operation) (w : world) :
  let w' := snd (call net dec op w) in
  exists k, (k <= 2)%nat /\
    attempts w' = (attempts w + S k)%nat /\
    List.length (slept w') = (List.length (slept w) + k)%nat /\
    (List.length (sent w) + k <= List.length (sent w'))%nat /\
    (List.length (sent w') <= List.length (sent w) + S k)%nat.
Proof.
  intros w'. unfold w', call, retry.
  destruct (retry_loop _ _ _ _ _ w) as [r w1] eqn:E.
  apply retry_loop_counts in E; [|lia].
  destruct E as [k (K1 & K2 & K3 & K4 & K5 & _)]. cbn [snd].
  exists k. repeat split; try lia.
  rewrite K3, length_app, length_map, length_seq. reflexivity.
Qed.

(** X18.  Giving up.  A call ends with a [ConnectionError] or a [Timeout] only
    after three attempts, each of which sent its request, with sleeps of 2
    and 2 seconds between them; the exception raised is the one the
    transport raised at the third request. *)
Theorem retries_are_exhausted_before_giving_up
    (net : nat -> request -> outcome exn response)
    (dec : string -> option (list byte)) (op : operation)
    (w w' : world) (e : exn) :
  call net dec op w = (Raise e, w') ->
  retry_if_exception_type e = true ->
  attempts w' = (attempts w + 3)%nat /\
  slept w' = (slept w ++ [2; 2])%list /\
  List.length (sent w') = (List.length (sent w) + 3)%nat /\
  exists rq, net (List.length (sent w) + 2)%nat rq = Raise e.
Proof.
  intros E R. unfold call, retry in E.
  apply retry_loop_counts in E; [|lia].
  destruct E as [k (K1 & K2 & K3 & K4 & K5 & K6)].
  destruct (K6 e eq_refl R) as (L1 & L2 & L3).
  assert (k = 2%nat) by lia. subst k.
  repeat split; auto; lia.
Qed.

Lemma retries_are_exhausted_before_giving_up_witness :
  let net := fun (n : nat) (_ : request) =>
               @Raise exn response (ConnectionError "connection refused") in
  let w := fresh_world "https://photoapp" one_empty_file in
  let e := ConnectionError "connection refused" in
  let w' := snd (call net no_decoder Get_ping w) in
  (call net no_decoder Get_ping w = (Raise e, w') /\
   retry_if_exception_type e = true) /\
  attempts w' = (attempts w + 3)%nat /\
  slept w' = (slept w ++ [2; 2])%list /\
  List.length (sent w') = (List.length (sent w) + 3)%nat /\
  exists rq, net (List.length (sent w) + 2)%nat rq = Raise e.
Proof.
  intros net w e w'.
  assert (H : call net no_decoder Get_ping w = (Raise e, w')) by reflexivity.
  split; [split; [exact H|reflexivity]|].
  exact (retries_are_exhausted_before_giving_up net no_decoder Get_ping w w' e H eq_refl).
Defined.

End PhotoAppFacts.

(** ** Properties of the S3 download scripts *)

Module Lab01Facts.
Import Lab01.
Local Open Scope string_scope.

(** *** The extension *)

Lemma split_slash_nonempty (s : string) : split_slash s <> [].
Proof.
  induction s as [|c s IH]; cbn; [discriminate|].
  destruct (Ascii.eqb c "/"%char); [discriminate|].
  destruct (split_slash s); [contradiction|discriminate].
Qed.

Lemma contains_slash (c : ascii) (s : string) :
  contains_str "/" (String c s) = Ascii.eqb c "/"%char || contains_str "/" s.
Proof.
  cbn [contains_str String.prefix].
  destruct (ascii_dec "/"%char c) as [<-|N].
  - rewrite Ascii.eqb_refl. now destruct s.
  - assert (E : Ascii.eqb c "/"%char = false) by (apply Ascii.eqb_neq; congruence).
    now rewrite E.
Qed.

Lemma second_part_iff_slash (s : string) :
  nth_error (split_slash s) 1 = None <-> contains_str "/" s = false.
Proof.
  induction s as [|c s IH].
  - cbn. tauto.
  - rewrite contains_slash. cbn [split_slash].
    destruct (Ascii.eqb c "/"%char) eqn:E; cbn [orb].
    + pose proof (split_slash_nonempty s) as N.
      destruct (split_slash s); [contradiction|]. cbn. split; discriminate.
    + pose proof (split_slash_nonempty s) as N.
      destruct (split_slash s) as [|hd tl]; [contradiction|].
      cbn in IH |- *. exact IH.
Qed.

(** X19.  The extension always starts with a dot, and the computation fails
    in exactly one case, then with an [IndexError]: a content type that
    mentions "application" (and none of "jpeg", "text/plain", "python")
    but has no slash to split at.  Every such content type fails, and no
    other does. *)
Theorem parsed_content_type_cases (ct : string) :
  let no_subtype :=
    contains_str "jpeg" ct = false /\ contains_str "text/plain" ct = false /\
    contains_str "python" ct = false /\ contains_str "application" ct = true /\
    contains_str "/" ct = false in
  match parsed_content_type ct with
  | Ret ext => (exists rest, ext = "." ++ rest) /\ ~ no_subtype
  | Raise e => e = IndexError /\ no_subtype
  end.
Proof.
  unfold parsed_content_type. cbv zeta.
  destruct (contains_str "jpeg" ct);
    [split; [eauto|intros (H & _); discriminate]|].
  destruct (contains_str "text/plain" ct);
    [split; [eauto|intros (_ & H & _); discriminate]|].
  destruct (contains_str "python" ct);
    [split; [eauto|intros (_ & _ & H & _); discriminate]|].
  destruct (contains_str "application" ct);
    [|split; [eauto|intros (_ & _ & _ & H & _); discriminate]].
  destruct (nth_error (split_slash ct) 1) eqn:E.
  - split; [eauto|]. intros (_ & _ & _ & _ & H).
    apply second_part_iff_slash in H. congruence.
  - apply second_part_iff_slash in E. repeat split; auto.
Qed.

Lemma split_slash_no_slash (s : string) :
  contains_str "/" s = false -> split_slash s = [s].
Proof.
  induction s as [|c s IH]; [reflexivity|].
  rewrite contains_slash. intros H. apply orb_false_iff in H. destruct H as [Hc Hs].
  cbn [split_slash]. rewrite Hc, (IH Hs). reflexivity.
Qed.

(** X20.  For an "application/..." content type that none of the earlier tests
    catches, the extension is the whole text after the slash, parameters
    included. *)
Theorem application_subtype_is_the_extension (subtype : string) :
  let ct := "application/" ++ subtype in
  contains_str "jpeg" ct = false -> contains_str "text/plain" ct = false ->
  contains_str "python" ct = false -> contains_str "/" subtype = false ->
  parsed_content_type ct = Ret ("." ++ subtype).
Proof.
  intros ct H1 H2 H3 H4. unfold parsed_content_type. rewrite H1, H2, H3.
  assert (Ha : contains_str "application" ct = true) by reflexivity.
  rewrite Ha. unfold ct. cbn [append split_slash Ascii.eqb Bool.eqb].
  rewrite (split_slash_no_slash subtype H4). reflexivity.
Qed.

Lemma application_subtype_is_the_extension_witness :
  let ct := "application/" ++ "pdf; charset=binary" in
  (contains_str "jpeg" ct = false /\ contains_str "text/plain" ct = false /\
   contains_str "python" ct = false /\ contains_str "/" "pdf; charset=binary" = false) /\
  parsed_content_type ct = Ret ("." ++ "pdf; charset=binary").
Proof.
  intros ct. split; [repeat split|].
  exact (application_subtype_is_the_extension "pdf; charset=binary"
           eq_refl eq_refl eq_refl eq_refl).
Defined.

(** *** The download loop *)

Section Loop.
Variable net : nat -> outcome exn response.
Variable error_document : string -> list byte.

Lemma naps_step (n : nat) :
  snd (finally_block (retry_at n) {| requests := S n; slept := naps n |})
    = {| requests := S n; slept := naps (S n) |} /\
  fst (finally_block (retry_at n) {| requests := S n; slept := naps n |})
    = retry_at (S n).
Proof.
  unfold finally_block, retry_at, naps, max_retries.
  destruct n as [|[|n]]; cbn; auto.
  destruct n; cbn; auto.
Qed.

Lemma loop_step (fuel n : nat) (v : option response) :
  download_loop net error_document (S fuel) (retry_at n) v
    {| requests := n; slept := naps n |} =
  match net n with
  | Ret r =>
      if in_200_404 (status_code r)
      then Some (Some r, {| requests := S n; slept := naps (S n) |})
      else download_loop net error_document fuel (retry_at (S n)) (Some r)
             {| requests := S n; slept := naps (S n) |}
  | Raise e =>
      if (2 <=? n)%nat
      then Some (Some (error_response error_document e),
                 {| requests := S n; slept := naps (S n) |})
      else download_loop net error_document fuel (retry_at (S n)) v
             {| requests := S n; slept := naps (S n) |}
  end.
Proof.
  cbn [download_loop requests slept].
  assert (Hle : (retry_at n <=? max_retries)%nat = true).
  { unfold retry_at, max_retries. apply Nat.leb_le. lia. }
  rewrite Hle. destruct (naps_step n) as [H1 H2].
  destruct (finally_block (retry_at n) {| requests := S n; slept := naps n |})
    as [retry' w2]. cbn [fst snd] in H1, H2. subst retry' w2.
  assert (Heq : (retry_at n =? max_retries)%nat = (2 <=? n)%nat).
  { unfold retry_at, max_retries.
    destruct (Nat.eqb_spec (Nat.min (S n) 3) 3); destruct (Nat.leb_spec 2 n);
      try reflexivity; lia. }
  rewrite Heq. reflexivity.
Qed.

Lemma loop_from (d : nat) :
  forall fuel n v,
  (forall i, (n <= i < n + d)%nat -> ends_loop net i = false) ->
  ends_loop net (n + d) = true ->
  (d < fuel)%nat ->
  download_loop net error_document fuel (retry_at n) v
    {| requests := n; slept := naps n |} =
  Some (Some (final_response net error_document (n + d)),
        {| requests := S (n + d); slept := naps (S (n + d)) |}).
Proof.
  induction d as [|d IH]; intros fuel n v Hbefore Hend Hfuel;
    (destruct fuel as [|fuel]; [lia|]); rewrite loop_step.
  - rewrite Nat.add_0_r in *. unfold ends_loop, final_response in *.
    destruct (net n) as [r|e]; now rewrite Hend.
  - assert (Hn : ends_loop net n = false) by (apply Hbefore; lia).
    unfold ends_loop in Hn.
    replace (n + S d)%nat with (S n + d)%nat in * by lia.
    destruct (net n) as [r|e]; rewrite Hn; apply IH; auto; try lia;
      intros i Hi; apply Hbefore; lia.
Qed.

(** X21.  The loop is left at the first request that ends it: a status 200 or
    404, or an exception at the third request or later.  With enough fuel
    the script goes on with that response (the error response for an
    exception), after as many requests as it took; and it has slept 1
    second after the first request and 2 after the second, also when that
    request was the one that succeeded. *)
Theorem download_ends_at_the_first_final_request (n fuel : nat) :
  (forall i, (i < n)%nat -> ends_loop net i = false) ->
  ends_loop net n = true ->
  (n < fuel)%nat ->
  download net error_document fuel =
  Some (Some (final_response net error_document n),
        {| requests := S n; slept := firstn (S n) [1; 2] |}).
Proof.
  intros Hbefore Hend Hfuel.
  exact (loop_from n fuel 0 None (fun i Hi => Hbefore i ltac:(lia)) Hend Hfuel).
Qed.

(** X22.  The loop is never left as long as no request ends it: if every
    response has a status other than 200 and 404 and no exception comes
    at the third request or later, the script is still in the loop after
    any number of iterations. *)
Theorem download_never_ends_without_a_final_request :
  (forall n, ends_loop net n = false) ->
  forall fuel, download net error_document fuel = None.
Proof.
  intros Hnever fuel.
  assert (G : forall n v,
            download_loop net error_document fuel (retry_at n) v
              {| requests := n; slept := naps n |} = None).
  { induction fuel as [|fuel IH]; intros n v; [reflexivity|].
    rewrite loop_step. pose proof (Hnever n) as Hn. unfold ends_loop in Hn.
    destruct (net n) as [r|e]; rewrite Hn; apply IH. }
  exact (G 0%nat None).
Qed.

(** X23.  Whenever the loop is left, the variable [response] is bound, to a
    response whose status is 200, 404 or the -1 of the error response;
    at most 1 + 2 seconds were slept; and the error response is built only
    from the third request on. *)
Theorem download_leaves_a_final_status (fuel : nat) (v : option response) (w : world) :
  download net error_document fuel = Some (v, w) ->
  exists r, v = Some r /\
    (status_code r = 200 \/ status_code r = 404 \/
     (status_code r = -1 /\ (3 <= requests w)%nat)) /\
    slept w = firstn (requests w) [1; 2].
Proof.
  assert (G : forall n v0,
            download_loop net error_document fuel (retry_at n) v0
              {| requests := n; slept := naps n |} = Some (v, w) ->
            exists r, v = Some r /\
              (status_code r = 200 \/ status_code r = 404 \/
               (status_code r = -1 /\ (3 <= requests w)%nat)) /\
              slept w = firstn (requests w) [1; 2]).
  { induction fuel as [|fuel IH]; intros n v0 H; [discriminate|].
    rewrite loop_step in H. destruct (net n) as [r|e].
    - destruct (in_200_404 (status_code r)) eqn:St; [|exact (IH _ _ H)].
      injection H as <- <-. exists r. split; [reflexivity|]. split; [|reflexivity].
      unfold in_200_404 in St. apply orb_true_iff in St.
      destruct St as [St|St]; apply Z.eqb_eq in St; auto.
    - destruct (2 <=? n)%nat eqn:L; [|exact (IH _ _ H)].
      injection H as <- <-. eexists. split; [reflexivity|]. split; [|reflexivity].
      right. right. cbn. apply Nat.leb_le in L. split; [reflexivity|lia]. }
  exact (G 0%nat None).
Qed.

End Loop.

Lemma download_ends_at_the_first_final_request_witness :
  let ok := {| status_code := 200; content_type := Some "image/jpeg"; content := [] |} in
  let net := fun _ : nat => @Ret exn response ok in
  let doc := fun _ : string => @nil byte in
  ((forall i, (i < 0)%nat -> ends_loop net i = false) /\
   ends_loop net 0 = true /\ (0 < 1)%nat) /\
  download net doc 1 =
  Some (Some (final_response net doc 0),
        {| requests := 1; slept := firstn 1 [1; 2] |}).
Proof.
  intros ok net doc.
  assert (H1 : forall i, (i < 0)%nat -> ends_loop net i = false) by (intros i Hi; lia).
  assert (H3 : (0 < 1)%nat) by lia.
  split; [repeat split; auto|].
  exact (download_ends_at_the_first_final_request net doc 0 1 H1 eq_refl H3).
Defined.

Lemma download_never_ends_without_a_final_request_witness :
  let busy := {| status_code := 500; content_type := None; content := [] |} in
  let net := fun _ : nat => @Ret exn response busy in
  let doc := fun _ : string => @nil byte in
  (forall n, ends_loop net n = false) /\
  forall fuel, download net doc fuel = None.
Proof.
  intros busy net doc.
  assert (H : forall n, ends_loop net n = false) by reflexivity.
  split; [exact H|].
  exact (download_never_ends_without_a_final_request net doc H).
Defined.

Lemma download_leaves_a_final_status_witness :
  let net := fun _ : nat => @Raise exn response (RequestFailure "no route to host") in
  let doc := fun _ : string => @nil byte in
  let v := Some (error_response doc (RequestFailure "no route to host")) in
  let w := {| requests := 3; slept := [1; 2] |} in
  download net doc 5 = Some (v, w) /\
  exists r, v = Some r /\
    (status_code r = 200 \/ status_code r = 404 \/
     (status_code r = -1 /\ (3 <= requests w)%nat)) /\
    slept w = firstn (requests w) [1; 2].
Proof.
  intros net doc v w.
  assert (H : download net doc 5 = Some (v, w)) by reflexivity.
  split; [exact H|].
  exact (download_leaves_a_final_status net doc 5 v w H).
Defined.

(** *** The boto script *)

(** X24.  The boto script reports every failure but the ones that come before
    its two names are bound.  When the bucket name or the region name
    cannot be read from the configuration, the handler that prints them
    raises a [NameError] itself.  Once both are read, the script raises
    nothing: the first step that fails (the S3 resource, the input of the
    name, the content type of the object, the extension, the download)
    ends the script with a report of the bucket, the region and the text
    of that step's exception, and the later steps are not asked; when no
    step fails, the download went to the name the user typed followed by
    the extension of the object's content type. *)
Theorem boto_script_reports_unless_unconfigured (s : surroundings) :
  match cfg_bucket_name s, cfg_region_name s with
  | Raise _, _ => fst (boto_script s unbound) = Raise (NameError "bucket_name")
  | Ret _, Raise _ => fst (boto_script s unbound) = Raise (NameError "region_name")
  | Ret b, Ret r =>
      fst (boto_script s unbound) =
      Ret match s3_resource s with
          | Raise e => Reported b r (str_exn e)
          | Ret _ =>
          match typed_imagename s with
          | Raise e => Reported b r (str_exn e)
          | Ret imagename =>
          match object_content_type s b imagename with
          | Raise e => Reported b r (str_exn e)
          | Ret ct =>
          match parsed_content_type ct with
          | Raise e => Reported b r (str_exn e)
          | Ret ext =>
          match download_file s b imagename (imagename ++ ext) with
          | Raise e => Reported b r (str_exn e)
          | Ret _ => Downloaded (imagename ++ ext)
          end end end end end
  end.
Proof.
  unfold boto_script, try_except, bind, library, set_bucket_name, set_region_name,
    read_name, ret.
  destruct (cfg_bucket_name s) as [b|e]; [|reflexivity].
  destruct (cfg_region_name s) as [r|e]; [|reflexivity].
  cbn. destruct (s3_resource s) as [[]|e]; cbn; [|reflexivity].
  destruct (typed_imagename s) as [imagename|e]; cbn; [|reflexivity].
  destruct (object_content_type s b imagename) as [ct|e]; cbn; [|reflexivity].
  destruct (parsed_content_type ct) as [ext|e]; cbn; [|reflexivity].
  destruct (download_file s b imagename (imagename ++ ext)) as [[]|e]; reflexivity.
Qed.

End Lab01Facts.
